(** * Sessylph icon generator: a shallow embedding of [scripts/generate_icon.py]

    The script builds a squircle path out of fixed Bezier coefficients, draws
    a masked and bevelled icon through AppKit, exports it at seven pixel sizes
    and writes an asset-catalog manifest.

    Conventions of the embedding:
    - Python floats are modelled by exact rationals ([Q]); the decimal
      literals of the source ([0.22], [1.52866483], ...) denote the rationals
      they spell, and rounding is not modelled.  Equality of coordinates is
      [Qeq] ([==]).  What is stated of coordinates is therefore kept to what
      rounding leaves alone: inequalities, and equalities between values the
      code computes by one and the same expression.  The radius, and the
      points a quarter turn compares, are also given on IEEE doubles
      ([Binary64]) and evaluated at the sizes the script uses.
    - Python ints are [Z].
    - AppKit objects are records; a method that mutates its receiver is a
      function returning the updated object, threaded through [let].
    - The graphics context is a log of the calls made on it, interpreted
      afterwards into what was painted under which clip.
    - The file system is a finite map from paths to file contents, together
      with the set of directories and the log of paths written.  Making a
      directory and writing a file fail where the file system does not let
      them: a regular file on the way, a missing directory, a directory in
      the place of a file. *)

From Stdlib Require Import QArith Qminmax Lqa ZArith List PrimFloat.
From Stdlib Require Import Ascii String Decimal DecimalString DecimalZ DecimalPos.
From Stdlib Require Import DecimalFacts DecimalN.
From stdpp Require Import gmap strings list.
Import ListNotations.

#[global] Set Warnings "-register-all,-inexact-float".

(** ** Part I: the program *)

(** *** Paths and the squircle ([create_squircle_path], lines 23-128) *)

Module Geometry.
Local Open Scope Q_scope.

Record NSPoint := mkNSPoint { px : Q; py : Q }.

(** The elements of an [NSBezierPath], in the argument order of the AppKit
    selectors: [curveToPoint:controlPoint1:controlPoint2:] takes the end
    point first. *)
Inductive PathElement :=
| MoveTo (p : NSPoint)
| LineTo (p : NSPoint)
| CurveTo (endPoint controlPoint1 controlPoint2 : NSPoint)
| ClosePath.

Record NSBezierPath := mkPath { elements : list PathElement; lineWidth : Q }.

(** [NSBezierPath.bezierPath()]: an empty path with the default line width. *)
Definition bezierPath : NSBezierPath := mkPath [] 1.

Definition append_element (e : PathElement) (path : NSBezierPath) : NSBezierPath :=
  mkPath (elements path ++ [e]) (lineWidth path).

Definition moveToPoint_ (p : NSPoint) := append_element (MoveTo p).
Definition lineToPoint_ (p : NSPoint) := append_element (LineTo p).
Definition curveToPoint_controlPoint1_controlPoint2_ (e c1 c2 : NSPoint) :=
  append_element (CurveTo e c1 c2).
Definition closePath := append_element ClosePath.
Definition setLineWidth_ (w : Q) (path : NSBezierPath) : NSBezierPath :=
  mkPath (elements path) w.

(** Python's two-argument [min]: the first argument unless the second is
    strictly smaller. *)
Definition py_min (a b : Q) : Q := if Qlt_le_dec b a then b else a.

Definition LIMIT_FACTOR : Q := 1.52866483.
Definition TOP_RIGHT_P1 : Q := 1.52866483.
Definition TOP_RIGHT_P2 : Q := 1.08849323.
Definition TOP_RIGHT_P3 : Q := 0.86840689.
Definition TOP_RIGHT_P4 : Q := 0.66993427.
Definition TOP_RIGHT_P5 : Q := 0.63149399.
Definition TOP_RIGHT_P6 : Q := 0.37282392.
Definition TOP_RIGHT_P7 : Q := 0.16906013.

Definition TOP_RIGHT_CP1 : Q := 0.06549600.
Definition TOP_RIGHT_CP2 : Q := 0.07491100.
Definition TOP_RIGHT_CP3 : Q := 0.16905899.
Definition TOP_RIGHT_CP4 : Q := 0.37282401.

(** Lines 44-46: the corner radius and its clamp. *)
Definition limited_radius (width height : Q) : Q :=
  let corner_radius := py_min width height * 0.22 in
  let max_radius := py_min width height / 2 in
  py_min corner_radius (max_radius / LIMIT_FACTOR).

(** Which argument the clamp of line 46 returns. *)
Inductive ClampBranch := Unclamped | Clamped.

Definition clamp_branch (width height : Q) : ClampBranch :=
  let corner_radius := py_min width height * 0.22 in
  let max_radius := py_min width height / 2 in
  if Qlt_le_dec (max_radius / LIMIT_FACTOR) corner_radius then Clamped else Unclamped.

Definition create_squircle_path (x y width height : Q) : NSBezierPath :=
  let path := bezierPath in
  let r := limited_radius width height in

  let left := x in
  let right := x + width in
  let top := y + height in
  let bottom := y in

  let path := moveToPoint_ (mkNSPoint (left + r * TOP_RIGHT_P1) top) path in
  let path := lineToPoint_ (mkNSPoint (right - r * TOP_RIGHT_P1) top) path in

  let path := curveToPoint_controlPoint1_controlPoint2_
    (mkNSPoint (right - r * TOP_RIGHT_P4) (top - r * TOP_RIGHT_CP1))
    (mkNSPoint (right - r * TOP_RIGHT_P2) top)
    (mkNSPoint (right - r * TOP_RIGHT_P3) top) path in
  let path := curveToPoint_controlPoint1_controlPoint2_
    (mkNSPoint (right - r * TOP_RIGHT_CP2) (top - r * TOP_RIGHT_P5))
    (mkNSPoint (right - r * TOP_RIGHT_P6) (top - r * TOP_RIGHT_CP3))
    (mkNSPoint (right - r * TOP_RIGHT_P7) (top - r * TOP_RIGHT_CP4)) path in
  let path := curveToPoint_controlPoint1_controlPoint2_
    (mkNSPoint right (top - r * TOP_RIGHT_P1))
    (mkNSPoint right (top - r * TOP_RIGHT_P3))
    (mkNSPoint right (top - r * TOP_RIGHT_P2)) path in

  let path := lineToPoint_ (mkNSPoint right (bottom + r * TOP_RIGHT_P1)) path in

  let path := curveToPoint_controlPoint1_controlPoint2_
    (mkNSPoint (right - r * TOP_RIGHT_CP1) (bottom + r * TOP_RIGHT_P4))
    (mkNSPoint right (bottom + r * TOP_RIGHT_P2))
    (mkNSPoint right (bottom + r * TOP_RIGHT_P3)) path in
  let path := curveToPoint_controlPoint1_controlPoint2_
    (mkNSPoint (right - r * TOP_RIGHT_P5) (bottom + r * TOP_RIGHT_CP2))
    (mkNSPoint (right - r * TOP_RIGHT_CP3) (bottom + r * TOP_RIGHT_P6))
    (mkNSPoint (right - r * TOP_RIGHT_CP4) (bottom + r * TOP_RIGHT_P7)) path in
  let path := curveToPoint_controlPoint1_controlPoint2_
    (mkNSPoint (right - r * TOP_RIGHT_P1) bottom)
    (mkNSPoint (right - r * TOP_RIGHT_P3) bottom)
    (mkNSPoint (right - r * TOP_RIGHT_P2) bottom) path in

  let path := lineToPoint_ (mkNSPoint (left + r * TOP_RIGHT_P1) bottom) path in

  let path := curveToPoint_controlPoint1_controlPoint2_
    (mkNSPoint (left + r * TOP_RIGHT_P4) (bottom + r * TOP_RIGHT_CP1))
    (mkNSPoint (left + r * TOP_RIGHT_P2) bottom)
    (mkNSPoint (left + r * TOP_RIGHT_P3) bottom) path in
  let path := curveToPoint_controlPoint1_controlPoint2_
    (mkNSPoint (left + r * TOP_RIGHT_CP2) (bottom + r * TOP_RIGHT_P5))
    (mkNSPoint (left + r * TOP_RIGHT_P6) (bottom + r * TOP_RIGHT_CP3))
    (mkNSPoint (left + r * TOP_RIGHT_P7) (bottom + r * TOP_RIGHT_CP4)) path in
  let path := curveToPoint_controlPoint1_controlPoint2_
    (mkNSPoint left (bottom + r * TOP_RIGHT_P1))
    (mkNSPoint left (bottom + r * TOP_RIGHT_P3))
    (mkNSPoint left (bottom + r * TOP_RIGHT_P2)) path in

  let path := lineToPoint_ (mkNSPoint left (top - r * TOP_RIGHT_P1)) path in

  let path := curveToPoint_controlPoint1_controlPoint2_
    (mkNSPoint (left + r * TOP_RIGHT_CP1) (top - r * TOP_RIGHT_P4))
    (mkNSPoint left (top - r * TOP_RIGHT_P2))
    (mkNSPoint left (top - r * TOP_RIGHT_P3)) path in
  let path := curveToPoint_controlPoint1_controlPoint2_
    (mkNSPoint (left + r * TOP_RIGHT_P5) (top - r * TOP_RIGHT_CP2))
    (mkNSPoint (left + r * TOP_RIGHT_CP3) (top - r * TOP_RIGHT_P6))
    (mkNSPoint (left + r * TOP_RIGHT_CP4) (top - r * TOP_RIGHT_P7)) path in
  let path := curveToPoint_controlPoint1_controlPoint2_
    (mkNSPoint (left + r * TOP_RIGHT_P1) top)
    (mkNSPoint (left + r * TOP_RIGHT_P3) top)
    (mkNSPoint (left + r * TOP_RIGHT_P2) top) path in

  let path := closePath path in
  path.

(** **** What a path draws

    The pen state of a path under construction is the start of the current
    subpath and the current point.  An element that needs a current point
    and finds none draws nothing. *)

Definition Pen : Type := option (NSPoint * NSPoint).

Definition pen_step (pen : Pen) (e : PathElement) : Pen :=
  match e, pen with
  | MoveTo p, _ => Some (p, p)
  | LineTo p, Some (start, _) => Some (start, p)
  | CurveTo e _ _, Some (start, _) => Some (start, e)
  | ClosePath, Some (start, _) => Some (start, start)
  | _, None => None
  end.

Definition pen_after (es : list PathElement) : Pen := fold_left pen_step es None.

Inductive Segment :=
| SegLine (a b : NSPoint)
| SegCurve (a c1 c2 b : NSPoint).

Definition segment_of (pen : Pen) (e : PathElement) : list Segment :=
  match e, pen with
  | LineTo p, Some (_, cur) => [SegLine cur p]
  | CurveTo e c1 c2, Some (_, cur) => [SegCurve cur c1 c2 e]
  | ClosePath, Some (start, cur) => [SegLine cur start]
  | _, _ => []
  end.

Fixpoint segments_from (pen : Pen) (es : list PathElement) : list Segment :=
  match es with
  | [] => []
  | e :: es' => segment_of pen e ++ segments_from (pen_step pen e) es'
  end.

Definition segments (path : NSBezierPath) : list Segment :=
  segments_from None (elements path).

(** The point of a segment at parameter [t]: linear interpolation for a
    line, the cubic Bernstein form for a curve. *)
Definition line_at (a b t : Q) : Q := (1 - t) * a + t * b.

Definition cubic_at (a c1 c2 b t : Q) : Q :=
  (1 - t) * (1 - t) * (1 - t) * a + 3 * (1 - t) * (1 - t) * t * c1
  + 3 * (1 - t) * t * t * c2 + t * t * t * b.

Definition seg_at (s : Segment) (t : Q) : NSPoint :=
  match s with
  | SegLine a b => mkNSPoint (line_at (px a) (px b) t) (line_at (py a) (py b) t)
  | SegCurve a c1 c2 b =>
      mkNSPoint (cubic_at (px a) (px c1) (px c2) (px b) t)
                (cubic_at (py a) (py c1) (py c2) (py b) t)
  end.

(** The points that define a segment: its end points and, for a curve, its
    two control points. *)
Definition seg_points (s : Segment) : list NSPoint :=
  match s with
  | SegLine a b => [a; b]
  | SegCurve a c1 c2 b => [a; c1; c2; b]
  end.

Definition pt_eq (p q : NSPoint) : Prop := px p == px q /\ py p == py q.

Definition on_path (path : NSBezierPath) (pt : NSPoint) : Prop :=
  exists s t, In s (segments path) /\ 0 <= t <= 1 /\ pt_eq pt (seg_at s t).


Definition in_rect (x y width height : Q) (pt : NSPoint) : Prop :=
  x <= px pt <= x + width /\ y <= py pt <= y + height.

(** The bounding box of a path is exactly the given rectangle: every point
    of the path is inside, and each of the four edges is touched. *)
Definition bounding_box_is (path : NSBezierPath) (x y width height : Q) : Prop :=
  (forall pt, on_path path pt -> in_rect x y width height pt)
  /\ (exists pt, on_path path pt /\ px pt == x)
  /\ (exists pt, on_path path pt /\ px pt == x + width)
  /\ (exists pt, on_path path pt /\ py pt == y)
  /\ (exists pt, on_path path pt /\ py pt == y + height).

(** **** Corners

    A corner is a maximal run of consecutive curve segments; its control
    polygon lists the start point and then, per curve, the two control
    points and the end point. *)
Definition flush (run : list NSPoint) : list (list NSPoint) :=
  match run with [] => [] | _ => [run] end.

Fixpoint corner_runs (run : list NSPoint) (ss : list Segment) : list (list NSPoint) :=
  match ss with
  | [] => flush run
  | SegLine _ _ :: ss' => flush run ++ corner_runs [] ss'
  | SegCurve a c1 c2 b :: ss' =>
      corner_runs (match run with
                   | [] => [a; c1; c2; b]
                   | _ => run ++ [c1; c2; b]
                   end) ss'
  end.

Definition corners (path : NSBezierPath) : list (list NSPoint) :=
  corner_runs [] (segments path).

(** Twice the signed area of the triangle [a b c]: negative for a clockwise
    turn at [b] (the y axis of AppKit points up), zero when collinear. *)
Definition turn (a b c : NSPoint) : Q :=
  (px b - px a) * (py c - py b) - (py b - py a) * (px c - px b).

Fixpoint turns (l : list NSPoint) : list Q :=
  match l with
  | a :: ((b :: c :: _) as l') => turn a b c :: turns l'
  | _ => []
  end.



(** Rotation by a quarter turn (clockwise) about [c]. *)
Definition rot90 (c pt : NSPoint) : NSPoint :=
  mkNSPoint (px c + (py pt - py c)) (py c - (px pt - px c)).



(** The radius a squircle was drawn with, read back from its first point
    (line 54 places it at [left + r * TOP_RIGHT_P1]). *)
Definition start_point (path : NSBezierPath) : option NSPoint :=
  match elements path with
  | MoveTo p :: _ => Some p
  | _ => None
  end.

Definition radius_drawn (path : NSBezierPath) (x : Q) : option Q :=
  match start_point path with
  | Some p => Some ((px p - x) / TOP_RIGHT_P1)
  | None => None
  end.

(** The corner radius as the specification words it, to be compared with
    [limited_radius]: in general, and for a square of side [S]. *)
Definition spec_radius (width height : Q) : Q :=
  Qmin (0.22 * Qmin width height) ((Qmin width height / 2) / 1.52866483).

Definition spec_radius_square (S : Q) : Q :=
  Qmin (0.22 * S) (S / (2 * 1.52866483)).

(** **** More vocabulary for contours

    The segments a path draws itself (the closing segment of [closePath]
    left out), with their headings and the joints between them. *)
Definition stroke_of (pen : Pen) (e : PathElement) : list Segment :=
  match e with
  | ClosePath => []
  | _ => segment_of pen e
  end.

Fixpoint strokes_from (pen : Pen) (es : list PathElement) : list Segment :=
  match es with
  | [] => []
  | e :: es' => stroke_of pen e ++ strokes_from (pen_step pen e) es'
  end.

Definition strokes (path : NSBezierPath) : list Segment :=
  strokes_from None (elements path).

Definition is_line (s : Segment) : bool :=
  match s with
  | SegLine _ _ => true
  | SegCurve _ _ _ _ => false
  end.

Definition straight_runs (path : NSBezierPath) : list Segment :=
  List.filter is_line (strokes path).

Inductive Heading := Rightwards | Downwards | Leftwards | Upwards.

(** A straight run heads one way when it is parallel to that axis and does
    not run against it; a run of length zero heads every way. *)
Definition heads (d : Heading) (s : Segment) : Prop :=
  match s with
  | SegLine a b =>
      match d with
      | Rightwards => py a == py b /\ px a <= px b
      | Downwards => px a == px b /\ py b <= py a
      | Leftwards => py a == py b /\ px b <= px a
      | Upwards => px a == px b /\ py a <= py b
      end
  | SegCurve _ _ _ _ => False
  end.

(** How far a straight run gets along its heading. *)
Definition advance (d : Heading) (s : Segment) : Q :=
  match s with
  | SegLine a b =>
      match d with
      | Rightwards => px b - px a
      | Downwards => py a - py b
      | Leftwards => px a - px b
      | Upwards => py b - py a
      end
  | SegCurve _ _ _ _ => 0
  end.

(** The last leg of the control polygon of a segment, and the first. *)
Definition arrives (s : Segment) : NSPoint * NSPoint :=
  match s with
  | SegLine a b => (a, b)
  | SegCurve _ _ c2 b => (c2, b)
  end.

Definition departs (s : Segment) : NSPoint * NSPoint :=
  match s with
  | SegLine a b => (a, b)
  | SegCurve a c1 _ _ => (a, c1)
  end.

(** Each segment paired with the next one, the last with [first]. *)
Fixpoint pairs_from (first : Segment) (ss : list Segment) : list (Segment * Segment) :=
  match ss with
  | [] => []
  | s :: rest =>
      match rest with
      | [] => [(s, first)]
      | s' :: _ => (s, s') :: pairs_from first rest
      end
  end.

Definition joints (path : NSBezierPath) : list (Segment * Segment) :=
  match strokes path with
  | [] => []
  | s :: _ => pairs_from s (strokes path)
  end.

(** The joints where a straight run meets a curve. *)
Definition edge_corner_joints (path : NSBezierPath) : list (Segment * Segment) :=
  List.filter (fun j => xorb (is_line (fst j)) (is_line (snd j))) (joints path).

(** A joint is tangent when the two segments share the point and the leg
    arriving there and the leg departing from it are parallel and not
    opposed. *)
Definition tangent_joint (j : Segment * Segment) : Prop :=
  let '(a, b) := arrives (fst j) in
  let '(c, d) := departs (snd j) in
  pt_eq b c
  /\ (px b - px a) * (py d - py c) - (py b - py a) * (px d - px c) == 0
  /\ 0 <= (px b - px a) * (px d - px c) + (py b - py a) * (py d - py c).

End Geometry.

(** *** The radius on IEEE doubles

    Lines 44-46 again, on the binary64 floats Python computes with, to
    evaluate the clamp where rounding could matter. *)

Module Binary64.
Local Open Scope float_scope.

Definition py_min (a b : float) : float := if PrimFloat.ltb b a then b else a.

Definition LIMIT_FACTOR : float := 1.52866483.

Definition corner_radius (width height : float) : float := py_min width height * 0.22.

Definition capped_radius (width height : float) : float :=
  py_min width height / 2 / LIMIT_FACTOR.

Definition limited_radius (width height : float) : float :=
  py_min (corner_radius width height) (capped_radius width height).

(** The clamp of line 46 returns its second argument. *)
Definition clamped (S : float) : bool :=
  PrimFloat.ltb (capped_radius S S) (corner_radius S S).

(** Lines 153-154 for a canvas of [size] pixels. *)
Definition icon_size (size : float) : float := size * 0.8125.
Definition margin (size : float) : float := (size - icon_size size) / 2.

(** [m] times every power of two a double can hold, from the smallest
    subnormal up. *)
Fixpoint doublings (n : nat) (S : float) : list float :=
  match n with
  | O => []
  | S n' => S :: doublings n' (S * 2)
  end.

Definition sweep (m : float) : list float := doublings 2098 (m * 0x1p-1074).

(** Lines 58 and 76 for the mask of the script, the squircle of the box
    (96, 96, 832, 832): the end point of the first curve of the top right
    corner, and the end point of the first curve of the bottom right corner,
    onto which a quarter turn about the centre (512, 512) would have to
    carry it. *)
Definition mask_radius : float := limited_radius 832 832.

Definition mask_line58_end : float * float :=
  ((96 + 832) - mask_radius * 0.66993427, (96 + 832) - mask_radius * 0.06549600).

Definition mask_line76_end : float * float :=
  ((96 + 832) - mask_radius * 0.06549600, 96 + mask_radius * 0.66993427).

Definition rot90 (cx cy : float) (pt : float * float) : float * float :=
  (cx + (snd pt - cy), cy - (fst pt - cx)).

End Binary64.

(** *** The toolkit: images, bitmaps and the graphics context *)

Module AppKit.
Import Geometry.
Local Open Scope Q_scope.

Record NSSize := NSMakeSize { width : Q; height : Q }.

Record NSRect := NSMakeRect { origin_x : Q; origin_y : Q; size_width : Q; size_height : Q }.

Record NSColor :=
  colorWithCalibratedRed_green_blue_alpha_ { red : Q; green : Q; blue : Q; alpha : Q }.

Inductive CompositingOperation := NSCompositingOperationSourceOver.

(** An image is either decoded from a file or assembled from a bitmap
    ([initWithSize_] followed by [addRepresentation_]).  A bitmap records
    its pixel dimensions, its point size, and the calls made on the graphics
    context that draws into it. *)
Inductive NSImage :=
| DecodedImage (size : NSSize) (pixels : string)
| BitmapImage (size : NSSize) (rep : NSBitmapImageRep)
with NSBitmapImageRep :=
| mkBitmap (pixelsWide pixelsHigh : Z) (repSize : NSSize) (canvas : list ContextCall)
with ContextCall :=
| SetShouldAntialias (flag : bool)
| SetImageInterpolation (level : Z)
| SaveGraphicsState
| RestoreGraphicsState
| AddClip (path : NSBezierPath)
| DrawInRect (image : NSImage) (inRect fromRect : NSRect)
             (operation : CompositingOperation) (fraction : Q)
| SetStroke (color : NSColor)
| Stroke (path : NSBezierPath).

Definition image_size (image : NSImage) : NSSize :=
  match image with
  | DecodedImage size _ => size
  | BitmapImage size _ => size
  end.

Definition pixelsWide (rep : NSBitmapImageRep) : Z :=
  match rep with mkBitmap w _ _ _ => w end.
Definition pixelsHigh (rep : NSBitmapImageRep) : Z :=
  match rep with mkBitmap _ h _ _ => h end.
Definition repSize (rep : NSBitmapImageRep) : NSSize :=
  match rep with mkBitmap _ _ s _ => s end.
Definition canvas (rep : NSBitmapImageRep) : list ContextCall :=
  match rep with mkBitmap _ _ _ c => c end.

(** [NSBitmapImageRep.alloc().initWithBitmapDataPlanes_...]: a blank RGBA
    bitmap of the given pixel dimensions.  There is no bitmap without
    pixels: for a width or a height that is not positive the initializer
    gives nothing ([None] in Python). *)
Definition alloc_bitmap (wide high : Z) : option NSBitmapImageRep :=
  if ((0 <? wide) && (0 <? high))%Z
  then Some (mkBitmap wide high (NSMakeSize (inject_Z wide) (inject_Z high)) [])
  else None.

Definition setSize_ (s : NSSize) (rep : NSBitmapImageRep) : NSBitmapImageRep :=
  mkBitmap (pixelsWide rep) (pixelsHigh rep) s (canvas rep).

(** The current graphics context: the bitmap it draws into, or none.  A
    drawing call appends to the canvas of the current context and is lost
    when there is none. *)
Definition CurrentContext : Type := option NSBitmapImageRep.

Definition call (c : ContextCall) (cur : CurrentContext) : CurrentContext :=
  match cur with
  | Some rep => Some (mkBitmap (pixelsWide rep) (pixelsHigh rep) (repSize rep) (canvas rep ++ [c]))
  | None => None
  end.

(** **** What a canvas shows

    The graphics state holds the clip (the paths added so far, intersected)
    and the stroke colour; [saveGraphicsState] pushes it and
    [restoreGraphicsState] pops it.  Replaying a canvas yields what was
    painted, each item with the clip in force. *)
Record GState := mkGState { clip : list NSBezierPath; strokeColor : NSColor }.

Inductive Painted :=
| PaintedImage (clipped : list NSBezierPath) (image : NSImage)
               (inRect fromRect : NSRect) (fraction : Q)
| PaintedStroke (clipped : list NSBezierPath) (outline : list PathElement)
                (strokeWidth : Q) (color : NSColor).

Definition black : NSColor := colorWithCalibratedRed_green_blue_alpha_ 0 0 0 1.

Fixpoint replay (gs : GState) (stack : list GState) (calls : list ContextCall)
  : list Painted :=
  match calls with
  | [] => []
  | SaveGraphicsState :: cs => replay gs (gs :: stack) cs
  | RestoreGraphicsState :: cs =>
      match stack with
      | saved :: stack' => replay saved stack' cs
      | [] => replay gs [] cs
      end
  | AddClip path :: cs => replay (mkGState (clip gs ++ [path]) (strokeColor gs)) stack cs
  | SetStroke color :: cs => replay (mkGState (clip gs) color) stack cs
  | DrawInRect image inRect fromRect _ fraction :: cs =>
      PaintedImage (clip gs) image inRect fromRect fraction :: replay gs stack cs
  | Stroke path :: cs =>
      PaintedStroke (clip gs) (elements path) (lineWidth path) (strokeColor gs)
        :: replay gs stack cs
  | _ :: cs => replay gs stack cs
  end.

Definition painted (rep : NSBitmapImageRep) : list Painted :=
  replay (mkGState [] black) [] (canvas rep).

Definition bitmap_of (image : NSImage) : option NSBitmapImageRep :=
  match image with
  | BitmapImage _ rep => Some rep
  | DecodedImage _ _ => None
  end.

Definition clip_of (item : Painted) : list NSBezierPath :=
  match item with
  | PaintedImage c _ _ _ _ => c
  | PaintedStroke c _ _ _ => c
  end.

End AppKit.

(** *** JSON text ([json.dumps] with an indent, and a reader for it) *)

Module Json.
Local Open Scope string_scope.

(** A Python dict keeps its insertion order, so an object is an association
    list. *)
Inductive value :=
| Null
| Bool (b : bool)
| Int (n : Z)
| Str (s : string)
| Arr (items : list value)
| Obj (members : list (string * value)).

Definition quote : ascii := "034"%char.
Definition backslash : ascii := "092"%char.
Definition newline : string := String "010"%char "".

(** [str] of a Python int. *)
Definition str_int (n : Z) : string := DecimalString.NilZero.string_of_int (Z.to_int n).

Definition hex_digit (n : N) : ascii :=
  if (n <? 10)%N then ascii_of_N (48 + n) else ascii_of_N (87 + n).

(** The escapes of [json.dumps] with [ensure_ascii]: the short forms for
    the quote, the backslash and five control characters, the character
    itself from space to tilde, and a [\u00XX] escape otherwise (code points
    are the 8-bit characters of [ascii]). *)
Definition escape_char (c : ascii) : string :=
  let n := N_of_ascii c in
  if Ascii.eqb c quote then String backslash (String quote "")
  else if Ascii.eqb c backslash then String backslash (String backslash "")
  else if Ascii.eqb c "010" then String backslash "n"
  else if Ascii.eqb c "013" then String backslash "r"
  else if Ascii.eqb c "009" then String backslash "t"
  else if Ascii.eqb c "008" then String backslash "b"
  else if Ascii.eqb c "012" then String backslash "f"
  else if ((32 <=? n) && (n <=? 126))%N then String c ""
  else String backslash ("u00" +:+ String (hex_digit (n / 16)) (String (hex_digit (n mod 16)) "")).

Fixpoint escape (s : string) : string :=
  match s with
  | "" => ""
  | String c s' => escape_char c +:+ escape s'
  end.

Definition encode_string (s : string) : string :=
  String quote (escape s +:+ String quote "").

Fixpoint spaces (n : nat) : string :=
  match n with
  | O => ""
  | S n' => String " " (spaces n')
  end.

Definition newline_indent (indent level : nat) : string :=
  newline +:+ spaces (indent * level).

(** The pretty printer of [json.dumps(obj, indent=indent)]: items separated
    by a comma and a line break, keys by a colon and a space, empty
    containers printed closed. *)
Fixpoint encode (indent level : nat) (v : value) : string :=
  match v with
  | Null => "null"
  | Bool true => "true"
  | Bool false => "false"
  | Int n => str_int n
  | Str s => encode_string s
  | Arr [] => "[]"
  | Arr (x :: xs) =>
      "[" +:+ newline_indent indent (S level) +:+ encode indent (S level) x
      +:+ (fix rest (l : list value) : string :=
             match l with
             | [] => ""
             | y :: l' =>
                 "," +:+ newline_indent indent (S level)
                 +:+ encode indent (S level) y +:+ rest l'
             end) xs
      +:+ newline_indent indent level +:+ "]"
  | Obj [] => "{}"
  | Obj ((k, x) :: kxs) =>
      "{" +:+ newline_indent indent (S level)
      +:+ encode_string k +:+ ": " +:+ encode indent (S level) x
      +:+ (fix rest (l : list (string * value)) : string :=
             match l with
             | [] => ""
             | (k', y) :: l' =>
                 "," +:+ newline_indent indent (S level)
                 +:+ encode_string k' +:+ ": " +:+ encode indent (S level) y +:+ rest l'
             end) kxs
      +:+ newline_indent indent level +:+ "}"
  end.

Definition dumps (v : value) (indent : nat) : string := encode indent 0 v.

(** **** Reading JSON text back *)

Definition is_ws (c : ascii) : bool :=
  Ascii.eqb c " " || Ascii.eqb c "009" || Ascii.eqb c "010" || Ascii.eqb c "013".

Fixpoint skip_ws (s : string) : string :=
  match s with
  | String c s' => if is_ws c then skip_ws s' else s
  | "" => ""
  end.

Definition is_digit (c : ascii) : bool :=
  let n := N_of_ascii c in ((48 <=? n) && (n <=? 57))%N.

Definition hex_value (c : ascii) : option N :=
  let n := N_of_ascii c in
  if ((48 <=? n) && (n <=? 57))%N then Some (n - 48)%N
  else if ((97 <=? n) && (n <=? 102))%N then Some (n - 87)%N
  else if ((65 <=? n) && (n <=? 70))%N then Some (n - 55)%N
  else None.

(** The body of a string literal, after its opening quote; the result is
    the decoded string and the text after the closing quote. *)
Fixpoint read_string (s : string) : option (string * string) :=
  match s with
  | "" => None
  | String c s' =>
      if Ascii.eqb c quote then Some ("", s')
      else if Ascii.eqb c backslash then
        match s' with
        | String e s'' =>
            let plain (d : ascii) :=
              match read_string s'' with
              | Some (body, rest) => Some (String d body, rest)
              | None => None
              end in
            if Ascii.eqb e quote then plain quote
            else if Ascii.eqb e backslash then plain backslash
            else if Ascii.eqb e "/" then plain "/"%char
            else if Ascii.eqb e "n" then plain "010"%char
            else if Ascii.eqb e "r" then plain "013"%char
            else if Ascii.eqb e "t" then plain "009"%char
            else if Ascii.eqb e "b" then plain "008"%char
            else if Ascii.eqb e "f" then plain "012"%char
            else if Ascii.eqb e "u" then
              match s'' with
              | String "0" (String "0" (String h (String l s3))) =>
                  match hex_value h, hex_value l, read_string s3 with
                  | Some hv, Some lv, Some (body, rest) =>
                      Some (String (ascii_of_N (16 * hv + lv)) body, rest)
                  | _, _, _ => None
                  end
              | _ => None
              end
            else None
        | "" => None
        end
      else if (N_of_ascii c <? 32)%N then None
      else
        match read_string s' with
        | Some (body, rest) => Some (String c body, rest)
        | None => None
        end
  end.

Fixpoint read_digits (acc : Z) (s : string) : Z * string :=
  match s with
  | String c s' =>
      if is_digit c then read_digits (10 * acc + Z.of_N (N_of_ascii c - 48)) s'
      else (acc, s)
  | "" => (acc, "")
  end.

(** An integer literal: digits without a leading zero, not followed by a
    fraction or an exponent (floats are not read). *)
Definition read_nat (s : string) : option (Z * string) :=
  match s with
  | String c s' =>
      if is_digit c then
        let '(n, rest) := if Ascii.eqb c "0" then (0%Z, s') else read_digits 0 s in
        match rest with
        | String d _ =>
            if is_digit d || Ascii.eqb d "." || Ascii.eqb d "e" || Ascii.eqb d "E"
            then None else Some (n, rest)
        | "" => Some (n, rest)
        end
      else None
  | "" => None
  end.

Definition read_int (s : string) : option (Z * string) :=
  match s with
  | String "-" s' =>
      match read_nat s' with
      | Some (n, rest) => Some ((- n)%Z, rest)
      | None => None
      end
  | _ => read_nat s
  end.

Fixpoint strip_prefix (p s : string) : option string :=
  match p, s with
  | "", _ => Some s
  | String a p', String b s' => if Ascii.eqb a b then strip_prefix p' s' else None
  | _, "" => None
  end.

Fixpoint read_value (fuel : nat) (s : string) : option (value * string) :=
  match fuel with
  | O => None
  | S fuel' =>
      match s with
      | "" => None
      | String c s' =>
          if Ascii.eqb c quote then
            match read_string s' with
            | Some (body, rest) => Some (Str body, rest)
            | None => None
            end
          else if Ascii.eqb c "[" then
            match skip_ws s' with
            | String "]" rest => Some (Arr [], rest)
            | s1 =>
                match read_items fuel' s1 with
                | Some (items, rest) => Some (Arr items, rest)
                | None => None
                end
            end
          else if Ascii.eqb c "{" then
            match skip_ws s' with
            | String "}" rest => Some (Obj [], rest)
            | s1 =>
                match read_members fuel' s1 with
                | Some (members, rest) => Some (Obj members, rest)
                | None => None
                end
            end
          else
            match strip_prefix "null" s, strip_prefix "true" s, strip_prefix "false" s with
            | Some rest, _, _ => Some (Null, rest)
            | _, Some rest, _ => Some (Bool true, rest)
            | _, _, Some rest => Some (Bool false, rest)
            | None, None, None =>
                match read_int s with
                | Some (n, rest) => Some (Int n, rest)
                | None => None
                end
            end
      end
  end
with read_items (fuel : nat) (s : string) : option (list value * string) :=
  match fuel with
  | O => None
  | S fuel' =>
      match read_value fuel' s with
      | Some (v, rest) =>
          match skip_ws rest with
          | String "," rest' =>
              match read_items fuel' (skip_ws rest') with
              | Some (vs, rest'') => Some (v :: vs, rest'')
              | None => None
              end
          | String "]" rest' => Some ([v], rest')
          | _ => None
          end
      | None => None
      end
  end
with read_members (fuel : nat) (s : string) : option (list (string * value) * string) :=
  match fuel with
  | O => None
  | S fuel' =>
      match s with
      | String c s' =>
          if Ascii.eqb c quote then
            match read_string s' with
            | Some (key, rest) =>
                match skip_ws rest with
                | String ":" rest1 =>
                    match read_value fuel' (skip_ws rest1) with
                    | Some (v, rest2) =>
                        match skip_ws rest2 with
                        | String "," rest3 =>
                            match read_members fuel' (skip_ws rest3) with
                            | Some (kvs, rest4) => Some ((key, v) :: kvs, rest4)
                            | None => None
                            end
                        | String "}" rest3 => Some ([(key, v)], rest3)
                        | _ => None
                        end
                    | None => None
                    end
                | _ => None
                end
            | None => None
            end
          else None
      | "" => None
      end
  end.

(** [json.loads]: one value, surrounded by optional white space. *)
Definition loads (s : string) : option value :=
  match read_value (String.length s) (skip_ws s) with
  | Some (v, rest) =>
      match skip_ws rest with
      | "" => Some v
      | _ => None
      end
  | None => None
  end.

(** **** Reading a parsed value: [d[key]] on an object *)
Fixpoint assoc (key : string) (kvs : list (string * value)) : option value :=
  match kvs with
  | [] => None
  | (k, v) :: kvs' => if String.eqb key k then Some v else assoc key kvs'
  end.

Definition member (key : string) (v : value) : option value :=
  match v with
  | Obj kvs => assoc key kvs
  | _ => None
  end.

Definition string_member (key : string) (v : value) : option string :=
  match member key v with
  | Some (Str s) => Some s
  | _ => None
  end.

Definition images_of (v : value) : list value :=
  match member "images" v with
  | Some (Arr entries) => entries
  | _ => []
  end.

(** **** The layout of [encode], for reasoning about reading it back *)

(** Text after which a number literal ends. *)
Definition ends_number (rest : string) : Prop :=
  match rest with
  | "" => True
  | String c _ =>
      (is_digit c || Ascii.eqb c "." || Ascii.eqb c "e" || Ascii.eqb c "E")%bool = false
  end.

(** Induction on values that reaches the items of an array and the members
    of an object. *)
Fixpoint value_ind' (P : value -> Prop)
    (HNull : P Null) (HBool : forall b, P (Bool b)) (HInt : forall n, P (Int n))
    (HStr : forall s, P (Str s))
    (HArr : forall l, Forall P l -> P (Arr l))
    (HObj : forall m, Forall (fun kv => P (snd kv)) m -> P (Obj m))
    (v : value) {struct v} : P v :=
  match v with
  | Null => HNull
  | Bool b => HBool b
  | Int n => HInt n
  | Str s => HStr s
  | Arr l =>
      HArr l ((fix go (l : list value) : Forall P l :=
                 match l with
                 | [] => @List.Forall_nil _ P
                 | x :: l' =>
                     @List.Forall_cons _ P x l'
                       (value_ind' P HNull HBool HInt HStr HArr HObj x) (go l')
                 end) l)
  | Obj m =>
      HObj m ((fix go (m : list (string * value)) : Forall (fun kv => P (snd kv)) m :=
                 match m with
                 | [] => @List.Forall_nil _ (fun kv => P (snd kv))
                 | (k, x) :: m' =>
                     @List.Forall_cons _ (fun kv => P (snd kv)) (k, x) m'
                       (value_ind' P HNull HBool HInt HStr HArr HObj x) (go m')
                 end) m)
  end.

(** The text of the items after the first, and of the members after the
    first, as [encode] lays them out. *)
Fixpoint items_tail (indent level : nat) (l : list value) : string :=
  match l with
  | [] => ""
  | y :: l' =>
      "," +:+ newline_indent indent level +:+ encode indent level y +:+ items_tail indent level l'
  end.

Fixpoint members_tail (indent level : nat) (l : list (string * value)) : string :=
  match l with
  | [] => ""
  | (k', y) :: l' =>
      "," +:+ newline_indent indent level
      +:+ encode_string k' +:+ ": " +:+ encode indent level y +:+ members_tail indent level l'
  end.

(** Fuel enough to read a value back. *)
Fixpoint need (v : value) : nat :=
  match v with
  | Arr items =>
      S ((fix go (l : list value) : nat :=
            match l with
            | [] => 0
            | x :: l' => S (Nat.max (need x) (go l'))
            end) items)
  | Obj members =>
      S ((fix go (l : list (string * value)) : nat :=
            match l with
            | [] => 0
            | (_, x) :: l' => S (Nat.max (need x) (go l'))
            end) members)
  | _ => 1
  end.

Fixpoint need_items (l : list value) : nat :=
  match l with
  | [] => 0
  | x :: l' => S (Nat.max (need x) (need_items l'))
  end.

Fixpoint need_members (l : list (string * value)) : nat :=
  match l with
  | [] => 0
  | (_, x) :: l' => S (Nat.max (need x) (need_members l'))
  end.

(** The characters a value can start with. *)
Definition value_heads : list ascii :=
  [quote; "["; "{"; "n"; "t"; "f"; "-"; "0"; "1"; "2"; "3"; "4"; "5"; "6"; "7"; "8"; "9"]%char.

(** A value is read back when [read_value], given fuel for its depth, reads
    its text and leaves what follows it. *)
Definition reads_back (v : value) : Prop :=
  forall indent level rest fuel,
    need v <= fuel -> ends_number rest ->
    read_value fuel (encode indent level v +:+ rest) = Some (v, rest).

End Json.

(** *** The script: files, output and the four functions around [main] *)

Module Script.
Import Geometry AppKit.
Local Open Scope string_scope.

(** A path is the list of its components below the root; [__file__] is the
    absolute path of the script. *)
Abbreviation Path := (list string).

Definition path_div (p : Path) (s : string) : Path := p ++ [s].
Infix "//" := path_div (at level 40, left associativity).

Definition parent (p : Path) : Path := removelast p.
Definition name (p : Path) : string := List.last p "".

Fixpoint path_str_from (p : Path) : string :=
  match p with
  | [] => ""
  | c :: p' => "/" +:+ c +:+ path_str_from p'
  end.

Definition path_str (p : Path) : string :=
  match p with
  | [] => "/"
  | _ => path_str_from p
  end.

Inductive FileData :=
| ImageFile (image : NSImage)
| PNGFile (rep : NSBitmapImageRep)
| TextFile (text : string).

Record World := mkWorld {
  files : gmap Path FileData;
  dirs : gset Path;
  written : list Path;
  stdout : list string
}.

(** The exceptions a run can end with: the one the script raises itself
    (line 135), those of [pathlib] on a file system that does not let it
    make the directory or write the manifest, and the one of a method call
    on [None]. *)
Inductive Exception :=
| FileNotFoundError (msg : string)
| FileExistsError (msg : string)
| NotADirectoryError (msg : string)
| IsADirectoryError (msg : string)
| AttributeError (msg : string).

Inductive Outcome (A : Type) :=
| Returned (v : A)
| Raised (e : Exception).
Arguments Returned {A} v.
Arguments Raised {A} e.

(** Effectful code: a state transformer on the world that returns a value
    or raises. *)
Definition M (A : Type) : Type := World -> Outcome A * World.

Definition ret {A} (v : A) : M A := fun w => (Returned v, w).
Definition raise {A} (e : Exception) : M A := fun w => (Raised e, w).
Definition bind {A B} (m : M A) (k : A -> M B) : M B :=
  fun w =>
    match m w with
    | (Returned v, w') => k v w'
    | (Raised e, w') => (Raised e, w')
    end.

#[export] Instance M_ret : MRet M := @ret.
#[export] Instance M_bind : MBind M := fun A B k m => bind m k.

(** A call that leaves the file system alone. *)
Definition lift {A} (o : Outcome A) : M A := fun w => (o, w).

Definition print (line : string) : M unit :=
  fun w => (Returned tt, mkWorld (files w) (dirs w) (written w) (stdout w ++ [line])).

(** [Path.exists()]: a file or a directory is there. *)
Definition path_exists (p : Path) : M bool :=
  fun w => (Returned (bool_decide (is_Some (files w !! p) \/ p ∈ dirs w)), w).

(** A directory is there: the root, or a directory of the world. *)
Definition is_dir (p : Path) (w : World) : bool := bool_decide (p = [] \/ p ∈ dirs w).

(** The path and its ancestors, the root excluded. *)
Fixpoint ancestors_and_self (p : Path) (n : nat) : list Path :=
  match n with
  | O => []
  | S n' => take (S n') p :: ancestors_and_self p n'
  end.

(** The text of an [OSError]: [[Errno 17] File exists: '/a/b']. *)
Definition os_error (errno text : string) (p : Path) : string :=
  "[Errno " +:+ errno +:+ "] " +:+ text +:+ ": '" +:+ path_str p +:+ "'".

(** A regular file where a directory is wanted. *)
Definition in_the_way (w : World) (q : Path) : bool :=
  negb (bool_decide (q ∈ dirs w)) && bool_decide (is_Some (files w !! q)).

(** What [Path.mkdir] raises for [p] at a regular file [q] on the way. *)
Definition mkdir_error (p q : Path) : Exception :=
  if bool_decide (q = p)
  then FileExistsError (os_error "17" "File exists" p)
  else NotADirectoryError (os_error "20" "Not a directory" p).

(** [Path.mkdir(parents=True, exist_ok=True)] walks from the root down to
    the path: a directory that is there is kept ([exist_ok]), a missing one
    is made ([parents]), and a regular file on the way ends the call,
    with [FileExistsError] at the path itself and [NotADirectoryError]
    above it. *)
Fixpoint mkdir_walk (p : Path) (todo : list Path) : M unit :=
  match todo with
  | [] => ret tt
  | q :: todo' =>
      fun w =>
        if bool_decide (q ∈ dirs w) then mkdir_walk p todo' w
        else if bool_decide (is_Some (files w !! q)) then
          (Raised (mkdir_error p q), w)
        else
          mkdir_walk p todo' (mkWorld (files w) (dirs w ∪ {[q]}) (written w) (stdout w))
  end.

Definition mkdir_parents (p : Path) : M unit :=
  mkdir_walk p (rev (ancestors_and_self p (length p))).

(** A file can be written at [p]: its directory is there and [p] is not a
    directory itself. *)
Definition writable (w : World) (p : Path) : bool :=
  is_dir (parent p) w && negb (is_dir p w).

(** [NSData.writeToFile_atomically_]: writes the file where it can and
    answers whether it did; it does not raise. *)
Definition writeToFile_atomically_ (p : Path) (data : FileData) : M bool :=
  fun w =>
    if writable w p
    then (Returned true,
          mkWorld (<[p := data]> (files w)) (dirs w) (written w ++ [p]) (stdout w))
    else (Returned false, w).

(** [Path.write_text]: opens the file for writing, which raises when the
    path is a directory or its directory is not there. *)
Definition write_text (p : Path) (text : string) : M unit :=
  fun w =>
    if is_dir p w then
      (Raised (IsADirectoryError (os_error "21" "Is a directory" p)), w)
    else if is_dir (parent p) w then
      (Returned tt,
       mkWorld (<[p := TextFile text]> (files w)) (dirs w) (written w ++ [p]) (stdout w))
    else if bool_decide (is_Some (files w !! parent p)) then
      (Raised (NotADirectoryError (os_error "20" "Not a directory" p)), w)
    else
      (Raised (FileNotFoundError (os_error "2" "No such file or directory" p)), w).

(** [NSImage.alloc().initWithContentsOfFile_]: the image a file decodes
    to, or nothing when the file is missing or is not an image. *)
Definition initWithContentsOfFile_ (p : Path) : M (option NSImage) :=
  fun w =>
    (Returned
       match files w !! p with
       | Some (ImageFile image) => Some image
       | Some (PNGFile rep) =>
           Some (BitmapImage (NSMakeSize (inject_Z (pixelsWide rep)) (inject_Z (pixelsHigh rep))) rep)
       | Some (TextFile _) => None
       | None => None
       end, w).

Definition load_source_image (source_path : Path) : M NSImage :=
  image ← initWithContentsOfFile_ source_path;
  match image with
  | None => raise (FileNotFoundError ("Could not load image: " +:+ path_str source_path))
  | Some image => ret image
  end.

(** What Python raises for a method called on [None]. *)
Definition none_has_no (attribute : string) : Exception :=
  AttributeError ("'NoneType' object has no attribute '" +:+ attribute +:+ "'").

(** [create_icon] touches the graphics context only: it returns the image
    or raises, whatever the file system. *)
Definition create_icon (source_image : NSImage) (size : Z) : Outcome NSImage :=
  match alloc_bitmap size size with
  | None => Raised (none_has_no "setSize_")
  | Some bitmap =>
  let bitmap := setSize_ (NSMakeSize (inject_Z size) (inject_Z size)) bitmap in

  let ctx : CurrentContext := Some bitmap in
  let ctx := call (SetShouldAntialias true) ctx in

  let icon_size := (inject_Z size * 0.8125)%Q in
  let margin := ((inject_Z size - icon_size) / 2)%Q in

  let squircle_path := create_squircle_path margin margin icon_size icon_size in

  let ctx := call SaveGraphicsState ctx in
  let ctx := call (AddClip squircle_path) ctx in

  let source_size := image_size source_image in
  let crop_ratio := 0.15%Q in
  let crop_px := (width source_size * crop_ratio)%Q in
  let ctx := call (DrawInRect source_image
                     (NSMakeRect margin margin icon_size icon_size)
                     (NSMakeRect crop_px crop_px
                                 (width source_size - crop_px * 2)%Q
                                 (height source_size - crop_px * 2)%Q)
                     NSCompositingOperationSourceOver 1%Q) ctx in

  let ctx := call RestoreGraphicsState ctx in

  let bevel_offset := (inject_Z size * 0.004)%Q in
  let stroke_width := (inject_Z size * 0.008)%Q in

  let ctx := call SaveGraphicsState ctx in
  let ctx := call (AddClip squircle_path) ctx in

  let highlight_path :=
    create_squircle_path (margin + bevel_offset)%Q (margin - bevel_offset)%Q icon_size icon_size in
  let highlight_path := setLineWidth_ stroke_width highlight_path in
  let ctx := call (SetStroke (colorWithCalibratedRed_green_blue_alpha_ 1 1 1 0.5)) ctx in
  let ctx := call (Stroke highlight_path) ctx in

  let shadow_path :=
    create_squircle_path (margin - bevel_offset)%Q (margin + bevel_offset)%Q icon_size icon_size in
  let shadow_path := setLineWidth_ stroke_width shadow_path in
  let ctx := call (SetStroke (colorWithCalibratedRed_green_blue_alpha_ 0 0 0 0.25)) ctx in
  let ctx := call (Stroke shadow_path) ctx in

  let ctx := call RestoreGraphicsState ctx in

  let bitmap := default bitmap ctx in
  Returned (BitmapImage (NSMakeSize (inject_Z size) (inject_Z size)) bitmap)
  end.

(** [source_size] is the keyword parameter with default 1024: [None] is a
    call that does not pass it.  The answer of [writeToFile_atomically_] is
    dropped (line 227), and the line is printed whatever it was. *)
Definition save_png (image : NSImage) (path : Path) (size : Z) (source_size : option Z)
  : M unit :=
  let source_size := default 1024%Z source_size in
  match alloc_bitmap size size with
  | None => raise (none_has_no "setSize_")
  | Some bitmap =>
  let bitmap := setSize_ (NSMakeSize (inject_Z size) (inject_Z size)) bitmap in

  let ctx : CurrentContext := Some bitmap in
  let ctx := call (SetImageInterpolation 3) ctx in

  let ctx := call (DrawInRect image
                     (NSMakeRect 0 0 (inject_Z size) (inject_Z size))
                     (NSMakeRect 0 0 (inject_Z source_size) (inject_Z source_size))
                     NSCompositingOperationSourceOver 1%Q) ctx in

  let png_data := PNGFile (default bitmap ctx) in
  writeToFile_atomically_ path png_data ;;
  print ("  Created: " +:+ name path +:+ " (" +:+ Json.str_int size +:+ "x"
         +:+ Json.str_int size +:+ ")")
  end.

Definition png_name (size : Z) : string := "appicon_" +:+ Json.str_int size +:+ ".png".

(** The loop of lines 253-255. *)
Fixpoint export_sizes (icon : NSImage) (output_dir : Path) (sizes : list Z) : M unit :=
  match sizes with
  | [] => ret tt
  | size :: sizes' =>
      let output_path := output_dir // png_name size in
      save_png icon output_path size None ;;
      export_sizes icon output_dir sizes'
  end.

(** The dict of lines 258-264. *)
Definition contents_of (sizes : list Z) : Json.value :=
  Json.Obj
    [("images",
      Json.Arr
        (map (fun size =>
                Json.Obj [("filename", Json.Str (png_name size));
                          ("idiom", Json.Str "mac");
                          ("size", Json.Str (Json.str_int size +:+ "x" +:+ Json.str_int size));
                          ("scale", Json.Str "1x")])
             sizes));
     ("info", Json.Obj [("author", Json.Str "xcode"); ("version", Json.Int 1)])].

Definition main (file__ : Path) : M (option Z) :=
  let project_root := parent (parent file__) in
  let source_path := project_root // "images" // "appiconbase.png" in

  source_exists ← path_exists source_path;
  if negb source_exists then
    print ("Error: Source image not found: " +:+ path_str source_path) ;;
    ret (Some 1%Z)
  else
    let output_dir :=
      project_root // "Sources" // "Sessylph" // "Resources" // "Assets.xcassets"
                   // "AppIcon.appiconset" in
    mkdir_parents output_dir ;;

    print ("Loading source image: " +:+ path_str source_path) ;;
    source_image ← load_source_image source_path;

    print "Creating icon with squircle mask..." ;;
    icon ← lift (create_icon source_image 1024);

    let sizes := [16; 32; 64; 128; 256; 512; 1024]%Z in

    print (Json.newline +:+ "Generating PNG icons...") ;;
    export_sizes icon output_dir sizes ;;

    let contents := contents_of sizes in
    let contents_path := output_dir // "Contents.json" in
    write_text contents_path (Json.dumps contents 2 +:+ Json.newline) ;;
    print "  Created: Contents.json" ;;

    print (Json.newline +:+ "All icons generated successfully!") ;;
    ret None.

(** **** Names for the statements

    The paths and the size list that [main] computes, what stands in the
    way of a directory, and what it means for a file to hold the resampled
    export of an image. *)
Definition project_root_of (file__ : Path) : Path := parent (parent file__).

Definition source_path_of (file__ : Path) : Path :=
  project_root_of file__ // "images" // "appiconbase.png".

Definition output_dir_of (file__ : Path) : Path :=
  project_root_of file__ // "Sources" // "Sessylph" // "Resources" // "Assets.xcassets"
                         // "AppIcon.appiconset".

Definition contents_path_of (file__ : Path) : Path :=
  output_dir_of file__ // "Contents.json".

Definition export_list : list Z := [16; 32; 64; 128; 256; 512; 1024]%Z.

(** The toolkit decodes the file at [p] to [image]. *)
Definition decodes_to (w : World) (p : Path) (image : NSImage) : Prop :=
  fst (initWithContentsOfFile_ p w) = Returned (Some image).

(** The regular file that keeps [p] from being made a directory: the first
    one met from the root down to [p], if there is one. *)
Definition blocker (w : World) (p : Path) : option Path :=
  List.find (in_the_way w) (rev (ancestors_and_self p (length p))).

(** Nothing keeps [main] from its output: no regular file sits at the
    output directory or above it, and no directory sits in the place of one
    of the files to write. *)
Definition output_free (w : World) (file__ : Path) : Prop :=
  blocker w (output_dir_of file__) = None
  /\ forallb (fun size => negb (is_dir (output_dir_of file__ // png_name size) w))
             export_list = true
  /\ is_dir (contents_path_of file__) w = false.

(** The directory [dir] can take the file of every size: it is there, and
    no directory sits in the place of a file. *)
Definition can_hold (w : World) (dir : Path) (sizes : list Z) : Prop :=
  Forall (fun size => writable w (dir // png_name size) = true) sizes.

(** The paths of the loop, in its order. *)
Definition export_paths (dir : Path) (sizes : list Z) : list Path :=
  map (fun size => dir // png_name size) sizes.

(** [fd] is a PNG of [size] by [size] pixels onto which [image] was drawn
    once, unclipped, from the square of side [source_size] at the origin. *)
Definition resampled (image : NSImage) (size source_size : Z) (fd : FileData) : Prop :=
  exists rep,
    fd = PNGFile rep
    /\ pixelsWide rep = size /\ pixelsHigh rep = size
    /\ painted rep =
         [PaintedImage [] image
            (NSMakeRect 0 0 (inject_Z size) (inject_Z size))
            (NSMakeRect 0 0 (inject_Z source_size) (inject_Z source_size)) 1%Q].

(** The line [save_png] prints for a size. *)
Definition created_line (size : Z) : string :=
  "  Created: appicon_" +:+ Json.str_int size +:+ ".png ("
  +:+ Json.str_int size +:+ "x" +:+ Json.str_int size +:+ ")".

(** The manifest entry of one exported size, as the specification words it. *)
Definition manifest_entry (N : Z) : Json.value :=
  Json.Obj [("filename", Json.Str ("appicon_" +:+ Json.str_int N +:+ ".png"));
            ("idiom", Json.Str "mac");
            ("size", Json.Str (Json.str_int N +:+ "x" +:+ Json.str_int N));
            ("scale", Json.Str "1x")].

(** **** Sample inputs *)
Definition sample_image : NSImage := DecodedImage (NSMakeSize 2048 1536) "appiconbase".
Definition sample_file : Path := ["repo"; "scripts"; "generate_icon.py"].
Definition sample_world : World :=
  mkWorld {[ ["repo"; "images"; "appiconbase.png"] := ImageFile sample_image ]}
          {[ ["repo"]; ["repo"; "images"] ]} [] [].
Definition empty_world : World := mkWorld ∅ ∅ [] [].

(** The directories [mkdir_parents] makes for the output directory. *)
Definition made_dirs (file__ : Path) : gset Path :=
  list_to_set (ancestors_and_self (output_dir_of file__) (length (output_dir_of file__))).

(** A file system whose source path holds something that is not an image. *)
Definition garbage_world : World :=
  mkWorld {[ ["repo"; "images"; "appiconbase.png"] := TextFile "not an image" ]}
          {[ ["repo"]; ["repo"; "images"] ]} [] [].

(** A file system with the source image and a regular file named [Sources]
    where the output directory would go. *)
Definition blocked_world : World :=
  mkWorld {[ ["repo"; "images"; "appiconbase.png"] := ImageFile sample_image;
             ["repo"; "Sources"] := TextFile "a file, not a directory" ]}
          {[ ["repo"]; ["repo"; "images"] ]} [] [].

(** A file system with nothing but the directory [out]. *)
Definition out_world : World := mkWorld ∅ {[ ["out"] ]} [] [].

End Script.

(** ** Part II: properties *)

Import Geometry AppKit Script.

(** *** The corner radius *)

Section Radius.
Local Open Scope Q_scope.

Lemma py_min_Qmin (a b : Q) : py_min a b == Qmin a b.
Proof.
  unfold py_min. destruct (Qlt_le_dec b a) as [H|H]; symmetry.
  - apply Q.min_r, Qlt_le_weak, H.
  - apply Q.min_l, H.
Qed.

Lemma py_min_cases (a b : Q) :
  (b < a /\ py_min a b = b) \/ (a <= b /\ py_min a b = a).
Proof. unfold py_min. destruct (Qlt_le_dec b a); auto. Qed.

Lemma py_min_pos (a b : Q) : 0 < a -> 0 < b -> 0 < py_min a b.
Proof. intros Ha Hb. destruct (py_min_cases a b) as [[_ ->]|[_ ->]]; assumption. Qed.

(** The cap [max_radius / LIMIT_FACTOR] is a fixed multiple of the shorter
    side, a little under a third of it. *)
Lemma cap_as_product (m : Q) : m / 2 / LIMIT_FACTOR == m * (50000000 # 152866483).
Proof. unfold LIMIT_FACTOR. field. Qed.

Lemma cap_above_corner (m : Q) : 0 < m -> m * 0.22 < m / 2 / LIMIT_FACTOR.
Proof. intros Hm. rewrite cap_as_product. lra. Qed.

Lemma cap_below_corner (m : Q) : m < 0 -> m / 2 / LIMIT_FACTOR < m * 0.22.
Proof. intros Hm. rewrite cap_as_product. lra. Qed.

Lemma limited_radius_unclamped (w h : Q) :
  0 < w -> 0 < h -> limited_radius w h = py_min w h * 0.22.
Proof.
  intros Hw Hh. unfold limited_radius. cbv zeta.
  pose proof (cap_above_corner _ (py_min_pos w h Hw Hh)) as Hcap.
  destruct (py_min_cases (py_min w h * 0.22) (py_min w h / 2 / LIMIT_FACTOR))
    as [[H _]|[_ E]]; [lra | exact E].
Qed.

Lemma limited_radius_bounds (w h : Q) :
  0 < w -> 0 < h ->
  0 < limited_radius w h
  /\ limited_radius w h <= 0.22 * w /\ limited_radius w h <= 0.22 * h.
Proof.
  intros Hw Hh. rewrite (limited_radius_unclamped w h Hw Hh).
  destruct (py_min_cases w h) as [[H1 E1]|[H1 E1]]; rewrite E1; lra.
Qed.

Lemma limited_radius_spec (w h : Q) : limited_radius w h == spec_radius w h.
Proof.
  unfold limited_radius, spec_radius, LIMIT_FACTOR. cbv zeta.
  rewrite !py_min_Qmin. apply Q.min_compat; [ring | reflexivity].
Qed.

(** Below zero the clamp does take over: the two candidate radii cross at a
    side of zero. *)
Lemma clamp_taken_below_zero (S : Q) :
  S < 0 -> clamp_branch S S = Clamped /\ limited_radius S S == S / (2 * 1.52866483).
Proof.
  intros HS. unfold clamp_branch, limited_radius. cbv zeta.
  assert (E : py_min S S = S) by (unfold py_min; destruct (Qlt_le_dec S S); reflexivity).
  rewrite E. pose proof (cap_below_corner S HS) as Hcap.
  split.
  - destruct (Qlt_le_dec (S / 2 / LIMIT_FACTOR) (S * 0.22)); [reflexivity | lra].
  - destruct (py_min_cases (S * 0.22) (S / 2 / LIMIT_FACTOR)) as [[_ ->]|[H _]]; [|lra].
    unfold LIMIT_FACTOR. field.
Qed.

End Radius.

(** On doubles, at the script's canvas of 1024 pixels: the icon box is
    832 wide with a margin of 96, exactly; the radius of its squircle is
    the unclamped [832 * 0.22]; and the clamp is not taken at any of ten
    thousand positive sizes spread over the whole range of doubles, while
    it is taken below zero. *)
Example binary64_icon_box :
  (Binary64.icon_size 1024 = 832 /\ Binary64.margin 1024 = 96)%float.
Proof. split; reflexivity. Qed.

Example binary64_radius_at_832 :
  (Binary64.limited_radius 832 832 = 832 * 0.22)%float
  /\ Binary64.clamped 832%float = false.
Proof. split; reflexivity. Qed.

Example binary64_clamp_sweep :
  existsb Binary64.clamped
    (Binary64.sweep 1 ++ Binary64.sweep 3 ++ Binary64.sweep 5 ++ Binary64.sweep 7
     ++ Binary64.sweep 0x1.fffffffffffffp0)%float = false
  /\ Binary64.clamped (-832)%float = true.
Proof. split; vm_compute; reflexivity. Qed.

(** On doubles, at the mask of the script, a quarter turn about the centre
    does not carry the defining points of the contour onto defining points:
    the end point of line 58 turned lands an ulp beside the end point of
    line 76 (same abscissa, ordinates 218.62476878079997 and
    218.62476878080003). *)
Example binary64_quarter_turn_inexact :
  (fst (Binary64.rot90 512 512 Binary64.mask_line58_end) = fst Binary64.mask_line76_end
   /\ PrimFloat.eqb (snd (Binary64.rot90 512 512 Binary64.mask_line58_end))
                    (snd Binary64.mask_line76_end) = false
   /\ PrimFloat.ltb (PrimFloat.abs (snd (Binary64.rot90 512 512 Binary64.mask_line58_end)
                          - snd Binary64.mask_line76_end)) 0x1p-40 = true)%float.
Proof. repeat split; vm_compute; reflexivity. Qed.

Section RadiusClaims.
Local Open Scope Q_scope.

(** C1.  The radius [create_squircle_path] works with is the minimum of
    [0.22 * min(width, height)] and [(min(width, height) / 2) / 1.52866483],
    the path is drawn with it (its first point sits [r * 1.52866483] right
    of the left edge), and for a square of side [S] the radius is
    [min(0.22 * S, S / (2 * 1.52866483))].  Positivity of the sides is not
    needed for this. *)
Theorem squircle_radius_formula (x y width height S : Q) :
  limited_radius width height == spec_radius width height
  /\ (exists r, radius_drawn (create_squircle_path x y width height) x = Some r
                /\ r == spec_radius width height)
  /\ limited_radius S S == spec_radius_square S.
Proof.
  split; [apply limited_radius_spec|]. split.
  - eexists. split; [reflexivity|].
    rewrite <- limited_radius_spec. cbn [px]. unfold TOP_RIGHT_P1. field.
  - rewrite limited_radius_spec. unfold spec_radius, spec_radius_square.
    rewrite Q.min_id. apply Q.min_compat; [reflexivity | field].
Qed.

(** C2, as the code has it.  For every side [S > 0] the clamp returns its
    first argument: the radius is [0.22 * S], strictly below the cap
    [S / (2 * 1.52866483)]. *)
Theorem clamp_unclamped_for_positive_sizes (S : Q) :
  0 < S ->
  clamp_branch S S = Unclamped
  /\ limited_radius S S == 0.22 * S
  /\ 0.22 * S < S / (2 * 1.52866483).
Proof.
  intros HS.
  assert (E : py_min S S = S) by (unfold py_min; destruct (Qlt_le_dec S S); reflexivity).
  pose proof (cap_above_corner S HS) as Hcap.
  split; [|split].
  - unfold clamp_branch. cbv zeta. rewrite E.
    destruct (Qlt_le_dec (S / 2 / LIMIT_FACTOR) (S * 0.22)); [lra | reflexivity].
  - rewrite (limited_radius_unclamped S S HS HS), E. ring.
  - rewrite cap_as_product in Hcap.
    assert (E2 : S / (2 * 1.52866483) == S * (50000000 # 152866483)) by field.
    rewrite E2. lra.
Qed.

Lemma clamp_unclamped_for_positive_sizes_witness :
  0 < 832
  /\ clamp_branch 832 832 = Unclamped
  /\ limited_radius 832 832 == 0.22 * 832
  /\ 0.22 * 832 < 832 / (2 * 1.52866483).
Proof. split; [reflexivity | apply (clamp_unclamped_for_positive_sizes 832); reflexivity]. Defined.

(** C2, as stated, fails: no positive side makes the radius the clamped
    value, so the two branches are not both reachable. *)
Lemma clamped_branch_unreachable :
  ~ ((exists S, 0 < S /\ limited_radius S S == 0.22 * S)
     /\ (exists S, 0 < S /\ limited_radius S S == S / (2 * 1.52866483))).
Proof.
  intros [_ (S & HS & Hclamped)].
  assert (E : py_min S S = S) by (unfold py_min; destruct (Qlt_le_dec S S); reflexivity).
  rewrite (limited_radius_unclamped S S HS HS), E in Hclamped.
  pose proof (cap_above_corner S HS) as Hcap. rewrite cap_as_product in Hcap.
  assert (E2 : S / (2 * 1.52866483) == S * (50000000 # 152866483)) by field.
  rewrite E2 in Hclamped. lra.
Qed.

End RadiusClaims.

(** *** The contour *)

Ltac unfold_coefficients :=
  unfold LIMIT_FACTOR, TOP_RIGHT_P1, TOP_RIGHT_P2, TOP_RIGHT_P3, TOP_RIGHT_P4,
    TOP_RIGHT_P5, TOP_RIGHT_P6, TOP_RIGHT_P7, TOP_RIGHT_CP1, TOP_RIGHT_CP2,
    TOP_RIGHT_CP3, TOP_RIGHT_CP4 in *.

(** Runs the path construction down to the list of its segments, leaving
    the arithmetic on coordinates untouched. *)
Ltac squircle_compute :=
  unfold create_squircle_path;
  cbv [segments corners corner_runs flush turns Geometry.elements bezierPath
       moveToPoint_ lineToPoint_ curveToPoint_controlPoint1_controlPoint2_ closePath
       append_element app lineWidth segments_from segment_of pen_step pen_after
       fold_left seg_points start_point radius_drawn].

(** Picks a member of a list given by extension, leaving the choice open to
    backtracking. *)
Ltac pick := (left; reflexivity) + (right; pick).

Section Bezier.
Local Open Scope Q_scope.
Variables lo hi t : Q.
Hypothesis Ht : 0 <= t <= 1.

Lemma line_at_between (a b : Q) :
  lo <= a <= hi -> lo <= b <= hi -> lo <= line_at a b t <= hi.
Proof. unfold line_at. intros. nra. Qed.

(** De Casteljau: a cubic is three rounds of linear interpolation, so it
    stays within any interval that holds its four control values. *)
Lemma cubic_at_between (a c1 c2 b : Q) :
  lo <= a <= hi -> lo <= c1 <= hi -> lo <= c2 <= hi -> lo <= b <= hi ->
  lo <= cubic_at a c1 c2 b t <= hi.
Proof.
  intros Ha Hc1 Hc2 Hb.
  assert (E : cubic_at a c1 c2 b t ==
    line_at (line_at (line_at a c1 t) (line_at c1 c2 t) t)
            (line_at (line_at c1 c2 t) (line_at c2 b t) t) t)
    by (unfold cubic_at, line_at; ring).
  rewrite E. repeat apply line_at_between; assumption.
Qed.

End Bezier.

Section Contour.
Local Open Scope Q_scope.

Lemma line_at_0 (a b : Q) : line_at a b 0 == a.
Proof. unfold line_at. ring. Qed.

Lemma seg_at_in_rect (x y w h : Q) (s : Segment) (t : Q) :
  0 <= t <= 1 -> Forall (in_rect x y w h) (seg_points s) -> in_rect x y w h (seg_at s t).
Proof.
  intros Ht Hs. destruct s as [a b|a c1 c2 b]; cbn [seg_points] in Hs.
  - inversion_clear Hs as [|? ? [Hax Hay] Hs']. inversion_clear Hs' as [|? ? [Hbx Hby] _].
    split; cbn [seg_at px py]; apply line_at_between; assumption.
  - inversion_clear Hs as [|? ? [Hax Hay] Hs1]. inversion_clear Hs1 as [|? ? [H1x H1y] Hs2].
    inversion_clear Hs2 as [|? ? [H2x H2y] Hs3]. inversion_clear Hs3 as [|? ? [Hbx Hby] _].
    split; cbn [seg_at px py]; apply cubic_at_between; assumption.
Qed.

Lemma squircle_control_points_in_rect (x y w h : Q) :
  0 < w -> 0 < h ->
  Forall (fun s => Forall (in_rect x y w h) (seg_points s))
         (segments (create_squircle_path x y w h)).
Proof.
  intros Hw Hh.
  destruct (limited_radius_bounds w h Hw Hh) as (Hr0 & Hrw & Hrh).
  squircle_compute.
  set (r := limited_radius w h) in *. clearbody r.
  unfold_coefficients.
  repeat first [apply List.Forall_cons | apply List.Forall_nil];
    unfold in_rect; cbn [px py]; lra.
Qed.

Lemma squircle_in_rect (x y w h : Q) (pt : NSPoint) :
  0 < w -> 0 < h ->
  on_path (create_squircle_path x y w h) pt -> in_rect x y w h pt.
Proof.
  intros Hw Hh (s & t & Hin & Ht & [Ex Ey]).
  pose proof (squircle_control_points_in_rect x y w h Hw Hh) as Hall.
  rewrite Forall_forall in Hall. specialize (Hall s).
  assert (Hs : in_rect x y w h (seg_at s t)).
  { apply seg_at_in_rect; [exact Ht|]. apply Hall. apply list_elem_of_In. exact Hin. }
  destruct Hs as [Hx Hy]. unfold in_rect. rewrite Ex, Ey. split; assumption.
Qed.

Lemma squircle_touches_edges (x y w h : Q) :
  (exists pt, on_path (create_squircle_path x y w h) pt /\ px pt == x)
  /\ (exists pt, on_path (create_squircle_path x y w h) pt /\ px pt == x + w)
  /\ (exists pt, on_path (create_squircle_path x y w h) pt /\ py pt == y)
  /\ (exists pt, on_path (create_squircle_path x y w h) pt /\ py pt == y + h).
Proof.
  unfold on_path. squircle_compute.
  set (r := limited_radius w h). clearbody r.
  repeat split.
  - exists (mkNSPoint x (y + r * TOP_RIGHT_P1)). split; [|reflexivity].
    eexists _, 0; split; [cbv [In]; pick|
      split; [lra| split; cbn [seg_at px py]; rewrite line_at_0; reflexivity]].
  - exists (mkNSPoint (x + w) (y + h - r * TOP_RIGHT_P1)). split; [|reflexivity].
    eexists _, 0; split; [cbv [In]; pick|
      split; [lra| split; cbn [seg_at px py]; rewrite line_at_0; reflexivity]].
  - exists (mkNSPoint (x + w - r * TOP_RIGHT_P1) y). split; [|reflexivity].
    eexists _, 0; split; [cbv [In]; pick|
      split; [lra| split; cbn [seg_at px py]; rewrite line_at_0; reflexivity]].
  - exists (mkNSPoint (x + r * TOP_RIGHT_P1) (y + h)). split; [|reflexivity].
    eexists _, 0; split; [cbv [In]; pick|
      split; [lra| split; cbn [seg_at px py]; rewrite line_at_0; reflexivity]].
Qed.

Lemma squircle_bounding_box (x y w h : Q) :
  0 < w -> 0 < h -> bounding_box_is (create_squircle_path x y w h) x y w h.
Proof.
  intros Hw Hh. split.
  - intros pt. apply squircle_in_rect; assumption.
  - apply squircle_touches_edges.
Qed.


Lemma squircle_has_four_corners (x y w h : Q) :
  length (corners (create_squircle_path x y w h)) = 4%nat.
Proof. reflexivity. Qed.






End Contour.

Section ContourClaims.
Local Open Scope Q_scope.






End ContourClaims.

(** *** The composed icon *)

Section Icon.
Local Open Scope Q_scope.

Lemma alloc_bitmap_pos (n : Z) :
  (0 < n)%Z ->
  alloc_bitmap n n = Some (mkBitmap n n (NSMakeSize (inject_Z n) (inject_Z n)) []).
Proof.
  intros Hn. unfold alloc_bitmap.
  destruct (Z.ltb_spec 0 n) as [_|H]; [reflexivity | lia].
Qed.

Lemma alloc_bitmap_nonpos (n : Z) : (n <= 0)%Z -> alloc_bitmap n n = None.
Proof.
  intros Hn. unfold alloc_bitmap.
  destruct (Z.ltb_spec 0 n) as [H|_]; [lia | reflexivity].
Qed.

Lemma create_icon_returns (source_image : NSImage) (size : Z) :
  (0 < size)%Z ->
  exists rep,
    create_icon source_image size
    = Returned (BitmapImage (NSMakeSize (inject_Z size) (inject_Z size)) rep).
Proof.
  intros Hpos. eexists. unfold create_icon. rewrite (alloc_bitmap_pos _ Hpos). reflexivity.
Qed.

(** C5.  On a canvas of [canvasSize] pixels, [create_icon] works in a box
    of side [canvasSize * 0.8125] centred on the canvas, and paints three
    things, each under the clip of the squircle built on that box and
    nothing else: the source image, taken from the source rectangle inset
    by 15% of the source width on every edge; a white stroke of alpha 0.5
    along the squircle shifted by [canvasSize * 0.004] right and down; and
    a black stroke of alpha 0.25 along the squircle shifted by as much left
    and up; both strokes [canvasSize * 0.008] wide.  The bitmap has
    [canvasSize] by [canvasSize] pixels, [canvasSize] being positive. *)
Theorem create_icon_composition (source_image : NSImage) (canvasSize : Z) :
  (0 < canvasSize)%Z ->
  let size := inject_Z canvasSize in
  let icon_size := size * 0.8125 in
  let margin := (size - icon_size) / 2 in
  let mask := create_squircle_path margin margin icon_size icon_size in
  let offset := size * 0.004 in
  let inset := width (image_size source_image) * 0.15 in
  let from_rect :=
    NSMakeRect inset inset
               (width (image_size source_image) - inset * 2)
               (height (image_size source_image) - inset * 2) in
  margin + icon_size + margin == size
  /\ origin_x from_rect + size_width from_rect == width (image_size source_image) - inset
  /\ origin_y from_rect + size_height from_rect == height (image_size source_image) - inset
  /\ exists rep,
       create_icon source_image canvasSize
       = Returned (BitmapImage (NSMakeSize size size) rep)
       /\ pixelsWide rep = canvasSize /\ pixelsHigh rep = canvasSize
       /\ painted rep =
            [PaintedImage [mask] source_image
               (NSMakeRect margin margin icon_size icon_size) from_rect 1;
             PaintedStroke [mask]
               (Geometry.elements
                  (create_squircle_path (margin + offset) (margin - offset)
                                        icon_size icon_size))
               (size * 0.008)
               (colorWithCalibratedRed_green_blue_alpha_ 1 1 1 0.5);
             PaintedStroke [mask]
               (Geometry.elements
                  (create_squircle_path (margin - offset) (margin + offset)
                                        icon_size icon_size))
               (size * 0.008)
               (colorWithCalibratedRed_green_blue_alpha_ 0 0 0 0.25)].
Proof.
  intros Hpos. cbv zeta. split; [field|]. split; [cbn [origin_x size_width]; ring|].
  split; [cbn [origin_y size_height]; ring|].
  eexists. split.
  { unfold create_icon. rewrite (alloc_bitmap_pos _ Hpos). reflexivity. }
  split; [reflexivity|]. split; reflexivity.
Qed.

Lemma create_icon_composition_witness :
  (0 < 1024)%Z
  /\ exists rep,
       create_icon sample_image 1024 = Returned (BitmapImage (NSMakeSize 1024 1024) rep)
       /\ pixelsWide rep = 1024%Z /\ pixelsHigh rep = 1024%Z
       /\ length (painted rep) = 3%nat.
Proof.
  split; [reflexivity|].
  destruct (create_icon_composition sample_image 1024 eq_refl)
    as (_ & _ & _ & rep & Hicon & Hwide & Hhigh & Hpainted).
  exists rep. split; [exact Hicon|]. split; [exact Hwide|]. split; [exact Hhigh|].
  rewrite Hpainted. reflexivity.
Defined.

End Icon.

(** *** File names *)

Section Names.
Local Open Scope string_scope.

Lemma to_int_proper (n : Z) : Z.to_int n <> Pos Nil /\ Z.to_int n <> Neg Nil.
Proof.
  destruct n as [|p|p]; cbn; split; try discriminate;
    intros [= H]; exact (Unsigned.to_uint_nonnil p H).
Qed.

Lemma str_int_inj (a b : Z) : Json.str_int a = Json.str_int b -> a = b.
Proof.
  unfold Json.str_int. intros H. apply to_int_inj.
  destruct (to_int_proper a) as [Ha1 Ha2], (to_int_proper b) as [Hb1 Hb2].
  pose proof (NilZero.isi _ Ha1 Ha2) as Ea. pose proof (NilZero.isi _ Hb1 Hb2) as Eb.
  rewrite H in Ea. congruence.
Qed.

Lemma append_cons (c : ascii) (s t : string) : String c s +:+ t = String c (s +:+ t).
Proof. reflexivity. Qed.

Lemma length_append (s t : string) :
  String.length (s +:+ t) = (String.length s + String.length t)%nat.
Proof.
  induction s as [|c s IH]; [reflexivity|].
  rewrite append_cons. cbn [String.length]. now rewrite IH.
Qed.

Lemma append_assoc (a b c : string) : (a +:+ b) +:+ c = a +:+ (b +:+ c).
Proof. induction a as [|x a IH]; [reflexivity|]. rewrite !append_cons. now rewrite IH. Qed.

Lemma append_inj_r (t s1 s2 : string) : s1 +:+ t = s2 +:+ t -> s1 = s2.
Proof.
  revert s2. induction s1 as [|c s1 IH]; intros [|d s2] H.
  - reflexivity.
  - apply (f_equal String.length) in H. rewrite append_cons in H.
    cbn [String.length] in H. rewrite !length_append in H. cbn in H. lia.
  - apply (f_equal String.length) in H. rewrite append_cons in H.
    cbn [String.length] in H. rewrite !length_append in H. cbn in H. lia.
  - rewrite !append_cons in H. injection H as -> H. f_equal. apply IH, H.
Qed.

Lemma png_name_inj (a b : Z) : png_name a = png_name b -> a = b.
Proof.
  unfold png_name. intros H.
  apply String.app_inj in H. apply append_inj_r in H. apply str_int_inj, H.
Qed.

Lemma path_div_inj (dir : Path) (a b : string) : dir // a = dir // b -> a = b.
Proof. unfold path_div. intros H. apply app_inv_head in H. congruence. Qed.

Lemma png_path_inj (dir : Path) (a b : Z) :
  dir // png_name a = dir // png_name b -> a = b.
Proof. intros H. apply png_name_inj, (path_div_inj dir), H. Qed.

End Names.

(** *** Running the script *)

Section Runs.
Local Open Scope string_scope.

Lemma bind_run {A B} (m : M A) (k : A -> M B) (w : World) (v : A) (w' : World) :
  m w = (Returned v, w') -> (m ≫= k) w = k v w'.
Proof. intros H. unfold mbind, M_bind, bind. now rewrite H. Qed.

Lemma bind_raise {A B} (m : M A) (k : A -> M B) (w : World) (e : Exception) (w' : World) :
  m w = (Raised e, w') -> (m ≫= k) w = (Raised e, w').
Proof. intros H. unfold mbind, M_bind, bind. now rewrite H. Qed.

Lemma decodes_exists (w : World) (p : Path) (image : NSImage) :
  decodes_to w p image -> path_exists p w = (Returned true, w).
Proof.
  unfold decodes_to, initWithContentsOfFile_, path_exists. cbn [fst].
  intros H. do 2 f_equal. apply bool_decide_eq_true. left.
  destruct (files w !! p); [eauto | discriminate].
Qed.

Lemma decodes_loads (w : World) (p : Path) (image : NSImage) :
  decodes_to w p image -> load_source_image p w = (Returned image, w).
Proof.
  unfold decodes_to, load_source_image. intros H.
  erewrite bind_run by reflexivity.
  unfold initWithContentsOfFile_ in H. cbn [fst] in H. injection H as ->. reflexivity.
Qed.

(** **** Paths *)

Lemma parent_path_div (dir : Path) (s : string) : parent (dir // s) = dir.
Proof. unfold parent, path_div. apply removelast_last. Qed.

Lemma name_path_div (dir : Path) (s : string) : name (dir // s) = s.
Proof. unfold name, path_div. apply last_last. Qed.

Lemma path_div_not_root (dir : Path) (s : string) : dir // s <> [].
Proof. unfold path_div. intros H. apply app_eq_nil in H as [_ H]. discriminate. Qed.

Lemma ancestors_length (p : Path) (n : nat) (q : Path) :
  q ∈ ancestors_and_self p n -> (length q <= length p)%nat.
Proof.
  induction n as [|n IH]; cbn [ancestors_and_self]; intros Hq.
  - apply elem_of_nil in Hq. contradiction.
  - apply elem_of_cons in Hq as [->|Hq]; [|exact (IH Hq)].
    rewrite length_take. lia.
Qed.

Lemma child_not_ancestor (p : Path) (s : string) (n : nat) :
  p // s ∉ ancestors_and_self p n.
Proof.
  intros H. apply ancestors_length in H. unfold path_div in H.
  rewrite length_app in H. cbn in H. lia.
Qed.

Lemma self_in_ancestors (p : Path) :
  p <> [] -> p ∈ ancestors_and_self p (length p).
Proof.
  intros Hp. destruct (length p) as [|n] eqn:E.
  - destruct p; [contradiction | discriminate].
  - cbn [ancestors_and_self]. rewrite <- E, firstn_all. apply list_elem_of_here.
Qed.

Lemma output_dir_made (file__ : Path) : output_dir_of file__ ∈ made_dirs file__.
Proof.
  unfold made_dirs. apply elem_of_list_to_set, self_in_ancestors.
  unfold output_dir_of. apply path_div_not_root.
Qed.

Lemma child_not_made (file__ : Path) (s : string) :
  output_dir_of file__ // s ∉ made_dirs file__.
Proof. unfold made_dirs. rewrite elem_of_list_to_set. apply child_not_ancestor. Qed.

(** **** Directories *)

Lemma is_dir_dirs (p : Path) (w w' : World) :
  dirs w' = dirs w -> is_dir p w' = is_dir p w.
Proof. unfold is_dir. now intros ->. Qed.

Lemma writable_dirs (p : Path) (w w' : World) :
  dirs w' = dirs w -> writable w' p = writable w p.
Proof. unfold writable. intros H. now rewrite !(is_dir_dirs _ _ _ H). Qed.

Lemma is_dir_true (p : Path) (w : World) : p ∈ dirs w -> is_dir p w = true.
Proof. intros H. apply bool_decide_eq_true. now right. Qed.

Lemma is_dir_child (dir : Path) (s : string) (w : World) :
  is_dir (dir // s) w = bool_decide (dir // s ∈ dirs w).
Proof.
  unfold is_dir. apply bool_decide_ext. split; [|now right].
  intros [H|H]; [|exact H]. now apply path_div_not_root in H.
Qed.

Lemma writable_child (dir : Path) (s : string) (w : World) :
  writable w (dir // s) = is_dir dir w && negb (is_dir (dir // s) w).
Proof. unfold writable. now rewrite parent_path_div. Qed.

(** Once the output directory is made, a file can be written in it where
    no directory was in its place before. *)
Lemma is_dir_output_child (file__ : Path) (s : string) (w w1 : World) :
  dirs w1 = dirs w ∪ made_dirs file__ ->
  is_dir (output_dir_of file__ // s) w1 = is_dir (output_dir_of file__ // s) w.
Proof.
  intros Hd. rewrite !is_dir_child, Hd. apply bool_decide_ext.
  rewrite elem_of_union. pose proof (child_not_made file__ s). tauto.
Qed.

Lemma writable_output_child (file__ : Path) (s : string) (w w1 : World) :
  dirs w1 = dirs w ∪ made_dirs file__ ->
  writable w1 (output_dir_of file__ // s) = negb (is_dir (output_dir_of file__ // s) w).
Proof.
  intros Hd. rewrite writable_child, (is_dir_output_child _ _ _ _ Hd).
  rewrite (is_dir_true (output_dir_of file__) w1); [reflexivity|].
  rewrite Hd. apply elem_of_union_r, output_dir_made.
Qed.

(** **** Making the directory *)

Lemma list_to_set_rev (l : list Path) : list_to_set (rev l) =@{gset Path} list_to_set l.
Proof.
  apply set_eq. intros q. rewrite !elem_of_list_to_set, !list_elem_of_In.
  symmetry. apply in_rev.
Qed.

Lemma find_ext {A} (f g : A -> bool) (l : list A) :
  (forall a, f a = g a) -> List.find f l = List.find g l.
Proof.
  intros H. induction l as [|a l IH]; [reflexivity|].
  cbn [List.find]. now rewrite H, IH.
Qed.

Lemma union_absorb (D S : gset Path) (q : Path) : q ∈ D -> D ∪ ({[q]} ∪ S) = D ∪ S.
Proof.
  intros Hq. apply set_eq. intros x. rewrite !elem_of_union, elem_of_singleton.
  split; [intros [H|[->|H]]; auto | intros [H|H]; auto].
Qed.

Lemma in_the_way_grow (w : World) (q q' : Path) :
  files w !! q = None ->
  in_the_way (mkWorld (files w) (dirs w ∪ {[q]}) (written w) (stdout w)) q'
  = in_the_way w q'.
Proof.
  intros Hq. unfold in_the_way. cbn [dirs files].
  destruct (decide (q' = q)) as [->|Hne].
  - rewrite Hq. rewrite (bool_decide_eq_false_2 (is_Some None)) by (intros [? ?]; discriminate).
    now rewrite !andb_false_r.
  - f_equal. f_equal. apply bool_decide_ext.
    rewrite elem_of_union, elem_of_singleton. tauto.
Qed.

Lemma mkdir_walk_run (p : Path) (todo : list Path) : forall w,
  exists w',
    files w' = files w /\ written w' = written w /\ stdout w' = stdout w
    /\ dirs w ⊆ dirs w'
    /\ match List.find (in_the_way w) todo with
       | None =>
           mkdir_walk p todo w = (Returned tt, w')
           /\ dirs w' = dirs w ∪ list_to_set todo
       | Some q => mkdir_walk p todo w = (Raised (mkdir_error p q), w')
       end.
Proof.
  induction todo as [|q todo IH]; intros w.
  - exists w. cbn [List.find mkdir_walk list_to_set].
    split; [reflexivity|]. split; [reflexivity|]. split; [reflexivity|].
    split; [reflexivity|]. split; [reflexivity|]. now rewrite union_empty_r_L.
  - cbn [List.find mkdir_walk list_to_set]. unfold in_the_way at 1.
    destruct (bool_decide (q ∈ dirs w)) eqn:Hd; cbn [negb andb].
    + apply bool_decide_eq_true in Hd.
      destruct (IH w) as (w' & Hf & Hw & Hs & Hsub & Hrun).
      exists w'. split; [exact Hf|]. split; [exact Hw|]. split; [exact Hs|].
      split; [exact Hsub|].
      destruct (List.find (in_the_way w) todo); [exact Hrun|].
      destruct Hrun as [Hrun Hdirs]. split; [exact Hrun|].
      rewrite Hdirs. symmetry. apply union_absorb, Hd.
    + destruct (bool_decide (is_Some (files w !! q))) eqn:Hfile.
      * exists w. split; [reflexivity|]. split; [reflexivity|]. split; [reflexivity|].
        split; reflexivity.
      * apply bool_decide_eq_false in Hfile.
        assert (Hnone : files w !! q = None) by (now apply eq_None_not_Some).
        set (w1 := mkWorld (files w) (dirs w ∪ {[q]}) (written w) (stdout w)).
        destruct (IH w1) as (w' & Hf & Hw & Hs & Hsub & Hrun).
        unfold w1 in Hrun at 1.
        rewrite (find_ext _ _ todo (fun q' => in_the_way_grow w q q' Hnone)) in Hrun.
        exists w'. split; [exact Hf|]. split; [exact Hw|]. split; [exact Hs|].
        split; [etransitivity; [|exact Hsub]; apply union_subseteq_l|].
        destruct (List.find (in_the_way w) todo); [exact Hrun|].
        destruct Hrun as [Hrun Hdirs]. split; [exact Hrun|].
        rewrite Hdirs. subst w1. cbn [dirs]. now rewrite (assoc_L (∪)).
Qed.

Lemma mkdir_parents_run (p : Path) (w : World) :
  exists w',
    files w' = files w /\ written w' = written w /\ stdout w' = stdout w
    /\ dirs w ⊆ dirs w'
    /\ match blocker w p with
       | None =>
           mkdir_parents p w = (Returned tt, w')
           /\ dirs w' = dirs w ∪ list_to_set (ancestors_and_self p (length p))
       | Some q => mkdir_parents p w = (Raised (mkdir_error p q), w')
       end.
Proof.
  unfold mkdir_parents, blocker.
  destruct (mkdir_walk_run p (rev (ancestors_and_self p (length p))) w)
    as (w' & Hf & Hw & Hs & Hsub & Hrun).
  exists w'. split; [exact Hf|]. split; [exact Hw|]. split; [exact Hs|].
  split; [exact Hsub|].
  destruct (List.find _ _); [exact Hrun|].
  destruct Hrun as [Hrun Hdirs]. split; [exact Hrun|].
  now rewrite Hdirs, list_to_set_rev.
Qed.

(** Where every directory on the way is there, nothing is in the way. *)
Lemma blocker_none_made (w : World) (p : Path) :
  (forall q, q ∈ ancestors_and_self p (length p) -> q ∈ dirs w) -> blocker w p = None.
Proof.
  intros Hall. unfold blocker.
  destruct (List.find _ _) as [q|] eqn:E; [|reflexivity].
  apply find_some in E as [Hin Hway]. apply in_rev, list_elem_of_In, Hall in Hin.
  unfold in_the_way in Hway. rewrite (bool_decide_eq_true_2 _ Hin) in Hway. discriminate.
Qed.

(** **** Exporting *)

Lemma created_line_eq (dir : Path) (size : Z) :
  "  Created: " +:+ name (dir // png_name size) +:+ " (" +:+ Json.str_int size +:+ "x"
  +:+ Json.str_int size +:+ ")"
  = created_line size.
Proof.
  rewrite name_path_div. unfold png_name, created_line.
  rewrite !append_assoc. reflexivity.
Qed.

(** For a positive size [save_png] returns and prints its line; it writes
    the file, the same whatever the file system, where it can be written. *)
Lemma save_png_run (image : NSImage) (path : Path) (size : Z) (source_size : option Z) :
  (0 < size)%Z ->
  exists fd,
    resampled image size (default 1024%Z source_size) fd
    /\ forall w,
         save_png image path size source_size w
         = (Returned tt,
            if writable w path
            then mkWorld (<[path := fd]> (files w)) (dirs w) (written w ++ [path])
                   (stdout w ++ ["  Created: " +:+ name path +:+ " (" +:+ Json.str_int size
                                 +:+ "x" +:+ Json.str_int size +:+ ")"])
            else mkWorld (files w) (dirs w) (written w)
                   (stdout w ++ ["  Created: " +:+ name path +:+ " (" +:+ Json.str_int size
                                 +:+ "x" +:+ Json.str_int size +:+ ")"])).
Proof.
  intros Hpos. unfold save_png. rewrite (alloc_bitmap_pos _ Hpos). cbv zeta.
  eexists. split; cycle 1.
  - intros w. unfold mbind, M_bind, bind, writeToFile_atomically_.
    destruct (writable w path); reflexivity.
  - eexists. split; [reflexivity|]. split; [reflexivity|]. split; reflexivity.
Qed.

(** No bitmap, no export: for a size that is not positive [save_png]
    raises before it writes or prints anything. *)
Lemma save_png_nonpositive (image : NSImage) (path : Path) (size : Z)
      (source_size : option Z) (w : World) :
  (size <= 0)%Z ->
  save_png image path size source_size w = (Raised (none_has_no "setSize_"), w).
Proof. intros H. unfold save_png. rewrite (alloc_bitmap_nonpos _ H). reflexivity. Qed.

Lemma export_paths_cons (dir : Path) (size : Z) (sizes : list Z) :
  export_paths dir (size :: sizes) = (dir // png_name size) :: export_paths dir sizes.
Proof. reflexivity. Qed.

Lemma export_path_parent (dir : Path) (sizes : list Z) (p : Path) :
  p ∈ export_paths dir sizes -> parent p = dir.
Proof.
  intros Hin. apply list_elem_of_fmap in Hin as (size & -> & _). apply parent_path_div.
Qed.

Lemma elem_of_written (w : World) (p : Path) (l : list Path) :
  p ∈ List.filter (writable w) l <-> p ∈ l /\ writable w p = true.
Proof. rewrite !list_elem_of_In. apply filter_In. Qed.

(** The export loop on positive sizes returns; it prints one line per size
    and writes, in order, the files that can be written, each a resampled
    export, and nothing else. *)
Lemma export_sizes_run (icon : NSImage) (dir : Path) (sizes : list Z) :
  Forall (fun size => (0 < size)%Z) sizes ->
  forall w, exists w',
    export_sizes icon dir sizes w = (Returned tt, w')
    /\ dirs w' = dirs w
    /\ written w' = (written w ++ List.filter (writable w) (export_paths dir sizes))%list
    /\ stdout w' = (stdout w ++ map created_line sizes)%list
    /\ (forall p, p ∉ List.filter (writable w) (export_paths dir sizes) ->
                  files w' !! p = files w !! p)
    /\ Forall (fun size => writable w (dir // png_name size) = true ->
                 exists fd, files w' !! (dir // png_name size) = Some fd
                            /\ resampled icon size 1024 fd) sizes.
Proof.
  induction 1 as [|size sizes Hpos _ IH]; intros w.
  - exists w. cbn [export_sizes export_paths map List.filter]. rewrite !app_nil_r.
    split; [reflexivity|]. split; [reflexivity|]. split; [reflexivity|].
    split; [reflexivity|]. split; [reflexivity | constructor].
  - destruct (save_png_run icon (dir // png_name size) size None Hpos) as (fd & Hfd & Hsave).
    specialize (Hsave w). rewrite created_line_eq in Hsave.
    rewrite export_paths_cons. cbn [List.filter map export_sizes].
    destruct (writable w (dir // png_name size)) eqn:Hwr.
    + match type of Hsave with _ = (_, ?x) => set (w1 := x) in * end.
      destruct (IH w1) as (w' & Hrun' & Hdirs' & Hwritten' & Hstdout' & Hother & Hall).
      rewrite (filter_ext (writable w1) (writable w)
                 (fun p => writable_dirs p w w1 eq_refl)) in Hwritten', Hother.
      exists w'. split; [erewrite bind_run by exact Hsave; exact Hrun'|].
      split; [exact Hdirs'|].
      split; [rewrite Hwritten'; unfold w1; cbn [written]; now rewrite <- app_assoc|].
      split; [rewrite Hstdout'; unfold w1; cbn [stdout]; now rewrite <- app_assoc|].
      split.
      { intros p Hp. apply not_elem_of_cons in Hp as [Hne Hp].
        rewrite (Hother p Hp). unfold w1. cbn [files].
        apply lookup_insert_ne. congruence. }
      constructor; [|exact Hall].
      intros _.
      destruct (decide (dir // png_name size
                          ∈ List.filter (writable w) (export_paths dir sizes))) as [Hin|Hnin].
      * apply elem_of_written in Hin as [Hin Hw].
        apply list_elem_of_fmap in Hin as (size' & Heq & Hin).
        apply png_path_inj in Heq. subst size'.
        rewrite Forall_forall in Hall. exact (Hall size Hin Hw).
      * exists fd. rewrite (Hother _ Hnin). unfold w1. cbn [files].
        rewrite lookup_insert_eq. auto.
    + match type of Hsave with _ = (_, ?x) => set (w1 := x) in * end.
      destruct (IH w1) as (w' & Hrun' & Hdirs' & Hwritten' & Hstdout' & Hother & Hall).
      rewrite (filter_ext (writable w1) (writable w)
                 (fun p => writable_dirs p w w1 eq_refl)) in Hwritten', Hother.
      exists w'. split; [erewrite bind_run by exact Hsave; exact Hrun'|].
      split; [exact Hdirs'|].
      split; [exact Hwritten'|].
      split; [rewrite Hstdout'; unfold w1; cbn [stdout]; now rewrite <- app_assoc|].
      split; [exact Hother|].
      constructor; [|exact Hall].
      intros H. rewrite Hwr in H. discriminate H.
Qed.

Lemma export_list_positive : Forall (fun size => (0 < size)%Z) export_list.
Proof. repeat constructor. Qed.

End Runs.

(** *** The ways [main] can go *)

Section MainRuns.
Local Open Scope string_scope.

Lemma decodes_to_same_file (w w' : World) (p : Path) (image : NSImage) :
  files w' !! p = files w !! p -> decodes_to w p image -> decodes_to w' p image.
Proof.
  unfold decodes_to, initWithContentsOfFile_. cbn [fst]. intros ->. exact id.
Qed.

Lemma source_outside_output_dir (file__ : Path) :
  parent (source_path_of file__) <> output_dir_of file__.
Proof.
  unfold source_path_of, output_dir_of. rewrite parent_path_div.
  intros H. apply (f_equal length) in H. unfold path_div in H.
  rewrite !length_app in H. cbn in H. lia.
Qed.

Lemma contents_path_not_png (file__ : Path) (sizes : list Z) :
  contents_path_of file__ ∉ export_paths (output_dir_of file__) sizes.
Proof.
  intros Hin. apply list_elem_of_fmap in Hin as (size & Heq & _).
  apply path_div_inj in Heq. unfold png_name in Heq.
  change "Contents.json" with ("C" +:+ "ontents.json") in Heq.
  change ("appicon_" +:+ Json.str_int size +:+ ".png")
    with (String "a" ("ppicon_" +:+ Json.str_int size +:+ ".png")) in Heq.
  discriminate Heq.
Qed.

(** The first way: no source image. *)
Lemma main_missing_run (file__ : Path) (w : World) :
  path_exists (source_path_of file__) w = (Returned false, w) ->
  main file__ w =
  (Returned (Some 1%Z),
   mkWorld (files w) (dirs w) (written w)
           (stdout w ++ ["Error: Source image not found: "
                         +:+ path_str (source_path_of file__)])).
Proof.
  intros Hmissing.
  unfold main. fold (project_root_of file__). fold (source_path_of file__).
  erewrite bind_run by exact Hmissing. cbn [negb].
  erewrite bind_run by reflexivity. reflexivity.
Qed.

(** The second way: a regular file where the output directory, or one of
    the directories above it, would be.  [mkdir] raises before anything is
    printed. *)
Lemma main_blocked_run (file__ : Path) (w : World) (q : Path) :
  path_exists (source_path_of file__) w = (Returned true, w) ->
  blocker w (output_dir_of file__) = Some q ->
  exists w',
    main file__ w = (Raised (mkdir_error (output_dir_of file__) q), w')
    /\ files w' = files w /\ dirs w ⊆ dirs w'
    /\ written w' = written w /\ stdout w' = stdout w.
Proof.
  intros Hex Hblock.
  destruct (mkdir_parents_run (output_dir_of file__) w) as (w' & Hf & Hw & Hs & Hsub & Hrun).
  rewrite Hblock in Hrun.
  exists w'. split; [|auto].
  unfold main. fold (project_root_of file__). fold (source_path_of file__).
  fold (output_dir_of file__).
  erewrite bind_run by exact Hex. cbn [negb].
  erewrite bind_raise by exact Hrun. reflexivity.
Qed.

(** The third way: a source file that is there but does not decode makes
    the loader raise, after the output directory was made and before
    anything is written. *)
Lemma main_undecodable_run (file__ : Path) (w : World) :
  path_exists (source_path_of file__) w = (Returned true, w) ->
  blocker w (output_dir_of file__) = None ->
  fst (initWithContentsOfFile_ (source_path_of file__) w) = Returned None ->
  exists w',
    main file__ w =
    (Raised (FileNotFoundError ("Could not load image: "
                                +:+ path_str (source_path_of file__))), w')
    /\ files w' = files w /\ dirs w' = dirs w ∪ made_dirs file__
    /\ written w' = written w
    /\ stdout w' = (stdout w ++ ["Loading source image: "
                                 +:+ path_str (source_path_of file__)])%list.
Proof.
  intros Hex Hfree Hnone.
  destruct (mkdir_parents_run (output_dir_of file__) w) as (w1 & Hf & Hw & Hs & _ & Hrun).
  rewrite Hfree in Hrun. destruct Hrun as [Hrun Hdirs].
  eexists. split.
  - unfold main. fold (project_root_of file__). fold (source_path_of file__).
    fold (output_dir_of file__).
    erewrite bind_run by exact Hex. cbn [negb].
    erewrite bind_run by exact Hrun.
    erewrite bind_run by reflexivity.
    erewrite bind_raise; [reflexivity|].
    unfold load_source_image. erewrite bind_run by reflexivity.
    unfold initWithContentsOfFile_ in Hnone. cbn [fst files] in Hnone |- *.
    rewrite Hf. injection Hnone as ->. reflexivity.
  - cbn [files dirs written stdout]. rewrite Hs. auto.
Qed.

(** With a source image that decodes and nothing in the way of the output
    directory, [main] gets through the export loop on the composed 1024
    pixel icon, and goes on to write the manifest in the world [w2] the
    loop leaves. *)
Lemma main_export_run (file__ : Path) (w : World) (image : NSImage) :
  decodes_to w (source_path_of file__) image ->
  blocker w (output_dir_of file__) = None ->
  exists icon w1 w2,
    create_icon image 1024 = Returned icon
    /\ files w1 = files w /\ dirs w1 = dirs w ∪ made_dirs file__
    /\ written w1 = written w
    /\ export_sizes icon (output_dir_of file__) export_list w1 = (Returned tt, w2)
    /\ main file__ w =
       (write_text (contents_path_of file__)
                   (Json.dumps (contents_of export_list) 2 +:+ Json.newline) ;;
        print "  Created: Contents.json" ;;
        print (Json.newline +:+ "All icons generated successfully!") ;;
        mret None) w2.
Proof.
  intros Hdec Hfree.
  destruct (mkdir_parents_run (output_dir_of file__) w) as (w0 & Hf & Hw & Hs & _ & Hrun).
  rewrite Hfree in Hrun. destruct Hrun as [Hrun Hdirs].
  destruct (create_icon_returns image 1024 eq_refl) as (rep & Hicon).
  set (icon := BitmapImage _ rep) in Hicon.
  set (w1 := mkWorld (files w0) (dirs w0) (written w0)
       (((stdout w0 ++ ["Loading source image: " +:+ path_str (source_path_of file__)])
           ++ ["Creating icon with squircle mask..."])
           ++ [Json.newline +:+ "Generating PNG icons..."])).
  destruct (export_sizes_run icon (output_dir_of file__) export_list export_list_positive w1)
    as (w2 & Hexport & _).
  exists icon, w1, w2. split; [exact Hicon|].
  split; [exact Hf|]. split; [exact Hdirs|]. split; [exact Hw|].
  split; [exact Hexport|].
  unfold main. fold (project_root_of file__). fold (source_path_of file__).
  fold (output_dir_of file__). fold (contents_path_of file__). fold export_list.
  erewrite bind_run by exact (decodes_exists _ _ _ Hdec). cbn [negb].
  erewrite bind_run by exact Hrun.
  erewrite bind_run by reflexivity.
  erewrite bind_run
    by (apply decodes_loads; eapply decodes_to_same_file; [|exact Hdec];
        cbn [files]; now rewrite Hf).
  erewrite bind_run by reflexivity.
  erewrite bind_run by (unfold lift; rewrite Hicon; reflexivity).
  erewrite bind_run by reflexivity.
  erewrite bind_run by exact Hexport.
  reflexivity.
Qed.

Lemma main_success_run (file__ : Path) (w : World) (image : NSImage) :
  decodes_to w (source_path_of file__) image ->
  blocker w (output_dir_of file__) = None ->
  is_dir (contents_path_of file__) w = false ->
  exists icon w1 w2,
    create_icon image 1024 = Returned icon
    /\ files w1 = files w /\ dirs w1 = dirs w ∪ made_dirs file__
    /\ written w1 = written w
    /\ export_sizes icon (output_dir_of file__) export_list w1 = (Returned tt, w2)
    /\ main file__ w =
       (Returned None,
        mkWorld (<[contents_path_of file__ :=
                     TextFile (Json.dumps (contents_of export_list) 2 +:+ Json.newline)]>
                   (files w2))
                (dirs w2)
                (written w2 ++ [contents_path_of file__])
                ((stdout w2 ++ ["  Created: Contents.json"])
                 ++ [Json.newline +:+ "All icons generated successfully!"])).
Proof.
  intros Hdec Hfree Hcontents.
  destruct (main_export_run file__ w image Hdec Hfree)
    as (icon & w1 & w2 & Hicon & Hf & Hd & Hw & Hexport & Hmain).
  exists icon, w1, w2. split; [exact Hicon|].
  split; [exact Hf|]. split; [exact Hd|]. split; [exact Hw|]. split; [exact Hexport|].
  rewrite Hmain.
  destruct (export_sizes_run icon (output_dir_of file__) export_list export_list_positive w1)
    as (w2' & Hexport' & Hd2 & _).
  rewrite Hexport in Hexport'. injection Hexport' as <-.
  assert (Hwrite : write_text (contents_path_of file__)
                     (Json.dumps (contents_of export_list) 2 +:+ Json.newline) w2
                   = (Returned tt,
                      mkWorld (<[contents_path_of file__ :=
                                   TextFile (Json.dumps (contents_of export_list) 2
                                             +:+ Json.newline)]> (files w2))
                              (dirs w2) (written w2 ++ [contents_path_of file__])
                              (stdout w2))).
  { unfold write_text.
    rewrite (is_dir_dirs _ w1 w2 Hd2).
    unfold contents_path_of at 1. rewrite (is_dir_output_child _ _ _ _ Hd).
    fold (contents_path_of file__). rewrite Hcontents.
    unfold contents_path_of at 1. rewrite parent_path_div.
    rewrite (is_dir_true (output_dir_of file__) w2); [reflexivity|].
    rewrite Hd2, Hd. apply elem_of_union_r, output_dir_made. }
  erewrite bind_run by exact Hwrite.
  do 2 erewrite bind_run by reflexivity. reflexivity.
Qed.

(** The last way to fail: a directory named [Contents.json].  The loop has
    run; [write_text] raises. *)
Lemma main_manifest_dir_run (file__ : Path) (w : World) (image : NSImage) :
  decodes_to w (source_path_of file__) image ->
  blocker w (output_dir_of file__) = None ->
  is_dir (contents_path_of file__) w = true ->
  exists icon w1 w2,
    create_icon image 1024 = Returned icon
    /\ files w1 = files w /\ dirs w1 = dirs w ∪ made_dirs file__
    /\ written w1 = written w
    /\ export_sizes icon (output_dir_of file__) export_list w1 = (Returned tt, w2)
    /\ main file__ w =
       (Raised (IsADirectoryError (os_error "21" "Is a directory" (contents_path_of file__))),
        w2).
Proof.
  intros Hdec Hfree Hcontents.
  destruct (main_export_run file__ w image Hdec Hfree)
    as (icon & w1 & w2 & Hicon & Hf & Hd & Hw & Hexport & Hmain).
  exists icon, w1, w2. split; [exact Hicon|].
  split; [exact Hf|]. split; [exact Hd|]. split; [exact Hw|]. split; [exact Hexport|].
  rewrite Hmain.
  destruct (export_sizes_run icon (output_dir_of file__) export_list export_list_positive w1)
    as (w2' & Hexport' & Hd2 & _).
  rewrite Hexport in Hexport'. injection Hexport' as <-.
  erewrite bind_raise; [reflexivity|].
  unfold write_text.
  rewrite (is_dir_dirs _ w1 w2 Hd2).
  unfold contents_path_of at 1. rewrite (is_dir_output_child _ _ _ _ Hd).
  fold (contents_path_of file__). rewrite Hcontents. reflexivity.
Qed.

(** The ways [main] can go, read off the file system it starts in. *)
Lemma main_cases (file__ : Path) (w : World) :
  path_exists (source_path_of file__) w = (Returned false, w)
  \/ (path_exists (source_path_of file__) w = (Returned true, w)
      /\ ((exists q, blocker w (output_dir_of file__) = Some q)
          \/ (blocker w (output_dir_of file__) = None
              /\ (fst (initWithContentsOfFile_ (source_path_of file__) w) = Returned None
                  \/ exists image,
                       decodes_to w (source_path_of file__) image
                       /\ (is_dir (contents_path_of file__) w = true
                           \/ is_dir (contents_path_of file__) w = false))))).
Proof.
  assert (Hex : path_exists (source_path_of file__) w = (Returned false, w)
                \/ path_exists (source_path_of file__) w = (Returned true, w)).
  { unfold path_exists. destruct (bool_decide _); auto. }
  destruct Hex as [Hex|Hex]; [now left|]. right. split; [exact Hex|].
  destruct (blocker w (output_dir_of file__)) as [q|]; [left; eauto|]. right.
  split; [reflexivity|].
  unfold decodes_to, initWithContentsOfFile_. cbn [fst].
  destruct (is_dir (contents_path_of file__) w);
    destruct (files w !! source_path_of file__) as [[image|rep|text]|]; eauto.
Qed.

End MainRuns.

Section ExportRuns.
Local Open Scope string_scope.

Lemma filter_all {A} (f : A -> bool) (l : list A) :
  Forall (fun a => f a = true) l -> List.filter f l = l.
Proof.
  induction 1 as [|a l Ha _ IH]; [reflexivity|].
  cbn [List.filter]. now rewrite Ha, IH.
Qed.

Lemma can_hold_paths (w : World) (dir : Path) (sizes : list Z) :
  can_hold w dir sizes ->
  List.filter (writable w) (export_paths dir sizes) = export_paths dir sizes.
Proof.
  intros H. apply filter_all. unfold export_paths. apply Forall_map. exact H.
Qed.

(** Where every file of the loop can be written, the loop writes them all. *)
Lemma export_sizes_all (icon : NSImage) (dir : Path) (sizes : list Z) (w : World) :
  Forall (fun size => (0 < size)%Z) sizes ->
  can_hold w dir sizes ->
  exists w',
    export_sizes icon dir sizes w = (Returned tt, w')
    /\ dirs w' = dirs w
    /\ written w' = (written w ++ export_paths dir sizes)%list
    /\ stdout w' = (stdout w ++ map created_line sizes)%list
    /\ (forall p, p ∉ export_paths dir sizes -> files w' !! p = files w !! p)
    /\ Forall (fun size => exists fd,
                 files w' !! (dir // png_name size) = Some fd
                 /\ resampled icon size 1024 fd) sizes.
Proof.
  intros Hpos Hhold.
  destruct (export_sizes_run icon dir sizes Hpos w)
    as (w' & Hrun & Hdirs & Hwritten & Hstdout & Hother & Hall).
  rewrite (can_hold_paths _ _ _ Hhold) in Hwritten, Hother.
  exists w'. split; [exact Hrun|]. split; [exact Hdirs|]. split; [exact Hwritten|].
  split; [exact Hstdout|]. split; [exact Hother|].
  unfold can_hold in Hhold. rewrite Forall_forall in Hall, Hhold. apply Forall_forall.
  intros size Hin. exact (Hall size Hin (Hhold size Hin)).
Qed.

(** With nothing in the way, every file of the fixed list can be written
    once the output directory is made. *)
Lemma output_free_can_hold (file__ : Path) (w w1 : World) :
  output_free w file__ ->
  dirs w1 = dirs w ∪ made_dirs file__ ->
  can_hold w1 (output_dir_of file__) export_list.
Proof.
  intros (_ & Hpaths & _) Hd. unfold can_hold.
  rewrite forallb_forall in Hpaths. apply Forall_forall. intros size Hin.
  rewrite (writable_output_child _ _ _ _ Hd).
  apply Hpaths, list_elem_of_In, Hin.
Qed.

(** The run of [main] with nothing in its way. *)
Lemma main_free_run (file__ : Path) (w : World) (image : NSImage) :
  decodes_to w (source_path_of file__) image ->
  output_free w file__ ->
  exists icon w2,
    create_icon image 1024 = Returned icon
    /\ written w2 = (written w ++ export_paths (output_dir_of file__) export_list)%list
    /\ (forall p, p ∉ export_paths (output_dir_of file__) export_list ->
                  files w2 !! p = files w !! p)
    /\ Forall (fun size => exists fd,
                 files w2 !! (output_dir_of file__ // png_name size) = Some fd
                 /\ resampled icon size 1024 fd) export_list
    /\ main file__ w =
       (Returned None,
        mkWorld (<[contents_path_of file__ :=
                     TextFile (Json.dumps (contents_of export_list) 2 +:+ Json.newline)]>
                   (files w2))
                (dirs w2)
                (written w2 ++ [contents_path_of file__])
                ((stdout w2 ++ ["  Created: Contents.json"])
                 ++ [Json.newline +:+ "All icons generated successfully!"])).
Proof.
  intros Hdec Hfree.
  destruct (main_success_run file__ w image Hdec (proj1 Hfree) (proj2 (proj2 Hfree)))
    as (icon & w1 & w2 & Hicon & Hf & Hd & Hw & Hexport & Hmain).
  destruct (export_sizes_all icon (output_dir_of file__) export_list w1
              export_list_positive (output_free_can_hold _ _ _ Hfree Hd))
    as (w2' & Hexport' & _ & Hwritten & _ & Hother & Hall).
  rewrite Hexport in Hexport'. injection Hexport' as <-.
  exists icon, w2. split; [exact Hicon|].
  split; [now rewrite Hwritten, Hw|].
  split; [intros p Hp; now rewrite (Hother p Hp), Hf|].
  split; [exact Hall | exact Hmain].
Qed.

Lemma filter_absent {A} `{EqDecision A} (c : A) (l : list A) :
  c ∉ l -> filter (fun p => p = c) l = [].
Proof.
  induction l as [|a l IH]; intros Hc; [reflexivity|].
  apply not_elem_of_cons in Hc as [Hne Hc].
  rewrite filter_cons_False by congruence. apply IH, Hc.
Qed.

Lemma Forall2_graph {A B} (f : A -> B) (l : list A) (k : list B) :
  Forall2 (fun a b => b = f a) l k -> k = map f l.
Proof. induction 1 as [|a b l k -> _ IH]; [reflexivity | cbn; now rewrite IH]. Qed.

Lemma map_graph {A B} (f : A -> B) (l : list A) :
  Forall2 (fun a b => b = f a) l (map f l).
Proof. induction l; constructor; auto. Qed.

Lemma manifest_reads_back :
  Json.loads (Json.dumps (contents_of export_list) 2 +:+ Json.newline)
  = Some (Json.Obj [("images", Json.Arr (map manifest_entry export_list));
                    ("info", Json.Obj [("author", Json.Str "xcode");
                                       ("version", Json.Int 1)])]).
Proof. vm_compute. reflexivity. Qed.

Lemma sample_world_free : output_free sample_world sample_file.
Proof. split; [reflexivity|]. split; reflexivity. Qed.

End ExportRuns.

Section ScriptClaims.
Local Open Scope string_scope.




(** C7.  When [main] gets to write it (the source image decodes, nothing
    is in the way of the output directory and no directory is named
    [Contents.json]), it writes [Contents.json] exactly once, and reading
    its text back as JSON gives an object with an [images] array that has
    one entry per exported size, in order, the entry of size [N] being
    [{"filename": "appicon_<N>.png", "idiom": "mac", "size": "<N>x<N>",
    "scale": "1x"}], and with the [info] object [{"author": "xcode",
    "version": 1}]. *)
Theorem manifest_round_trips (file__ : Path) (w : World) (image : NSImage) :
  decodes_to w (source_path_of file__) image ->
  blocker w (output_dir_of file__) = None ->
  is_dir (contents_path_of file__) w = false ->
  exists w' text entries news,
    main file__ w = (Returned None, w')
    /\ files w' !! contents_path_of file__ = Some (TextFile text)
    /\ Json.loads text =
       Some (Json.Obj [("images", Json.Arr entries);
                       ("info", Json.Obj [("author", Json.Str "xcode");
                                          ("version", Json.Int 1)])])
    /\ length entries = length export_list
    /\ Forall2 (fun N entry => entry = manifest_entry N) export_list entries
    /\ written w' = (written w ++ news)%list
    /\ length (filter (fun p => p = contents_path_of file__) news) = 1%nat.
Proof.
  intros Hdec Hfree Hcontents.
  destruct (main_success_run file__ w image Hdec Hfree Hcontents)
    as (icon & w1 & w2 & _ & _ & _ & Hw & Hexport & Hmain).
  destruct (export_sizes_run icon (output_dir_of file__) export_list export_list_positive w1)
    as (w2' & Hexport' & _ & Hwritten & _).
  rewrite Hexport in Hexport'. injection Hexport' as <-.
  eexists _, _, (map manifest_entry export_list),
    (List.filter (writable w1) (export_paths (output_dir_of file__) export_list)
     ++ [contents_path_of file__])%list.
  split; [exact Hmain|]. cbn [files written].
  split; [apply lookup_insert_eq|].
  split; [exact manifest_reads_back|].
  split; [apply length_map|].
  split; [apply map_graph|].
  split; [rewrite Hwritten, Hw; now rewrite <- app_assoc|].
  rewrite filter_app, filter_absent.
  - rewrite filter_cons_True by reflexivity. reflexivity.
  - intros Hin. apply elem_of_written in Hin as [Hin _].
    exact (contents_path_not_png file__ export_list Hin).
Qed.

Lemma manifest_round_trips_witness :
  (decodes_to sample_world (source_path_of sample_file) sample_image
   /\ blocker sample_world (output_dir_of sample_file) = None
   /\ is_dir (contents_path_of sample_file) sample_world = false)
  /\ exists w' text,
       main sample_file sample_world = (Returned None, w')
       /\ files w' !! contents_path_of sample_file = Some (TextFile text)
       /\ Json.loads text = Some (contents_of export_list).
Proof.
  split; [split; [reflexivity | split; reflexivity]|].
  destruct (manifest_round_trips sample_file sample_world sample_image
              eq_refl eq_refl eq_refl)
    as (w' & text & entries & news & Hmain & Hfile & Hloads & _ & Hall & _).
  exists w', text. split; [exact Hmain|]. split; [exact Hfile|].
  rewrite Hloads, (Forall2_graph _ _ _ Hall). reflexivity.
Defined.

End ScriptClaims.

Section ErrorClaims.
Local Open Scope string_scope.

(** C8.  When the existence check on the source path fails, [main] prints
    the error line, returns 1, and leaves the file system as it was: same
    files, same directories, nothing written.  The toolkit loader is not
    reached: the only output is the error line. *)
Theorem main_missing_source (file__ : Path) (w : World) :
  path_exists (source_path_of file__) w = (Returned false, w) ->
  exists w',
    main file__ w = (Returned (Some 1%Z), w')
    /\ files w' = files w
    /\ dirs w' = dirs w
    /\ written w' = written w
    /\ stdout w' =
       (stdout w ++ ["Error: Source image not found: "
                     +:+ path_str (source_path_of file__)])%list.
Proof.
  intros Hmissing. eexists. split.
  - unfold main. fold (project_root_of file__). fold (source_path_of file__).
    erewrite bind_run by exact Hmissing. cbn [negb].
    erewrite bind_run by reflexivity. reflexivity.
  - repeat split.
Qed.

Lemma main_missing_source_witness :
  path_exists (source_path_of sample_file) empty_world = (Returned false, empty_world)
  /\ exists w',
       main sample_file empty_world = (Returned (Some 1%Z), w')
       /\ files w' = files empty_world
       /\ dirs w' = dirs empty_world
       /\ written w' = written empty_world
       /\ stdout w' =
          (stdout empty_world
           ++ ["Error: Source image not found: "
               +:+ path_str (source_path_of sample_file)])%list.
Proof.
  split; [reflexivity|].
  apply (main_missing_source sample_file empty_world). reflexivity.
Defined.

(** C9.  [load_source_image] raises exactly when the toolkit initializer
    returns nothing for the path, and it returns an image exactly when the
    initializer decodes the path to that image. *)
Theorem load_source_image_raises_iff (source_path : Path) (w : World) (image : NSImage) :
  ((exists e, fst (load_source_image source_path w) = Raised e)
   <-> fst (initWithContentsOfFile_ source_path w) = Returned None)
  /\ (fst (load_source_image source_path w) = Returned image
      <-> fst (initWithContentsOfFile_ source_path w) = Returned (Some image)).
Proof.
  unfold load_source_image, initWithContentsOfFile_, mbind, M_bind, bind. cbn [fst].
  destruct (files w !! source_path) as [[decoded|rep|text]|]; unfold ret; cbn [fst];
    (split; split; [intros [e H] | intros H | intros H | intros H]);
    try discriminate; try congruence; eauto.
Qed.

(** C10.  Whatever image it is given and whatever that image measures,
    [save_png] called without [source_size] draws it once from the source
    rectangle (0, 0, 1024, 1024), for every positive size, and that is what
    the file holds where it can be written; the loop in [main], the only
    caller, calls it that way for every size, so after a run with nothing
    in its way each exported file was sampled from that rectangle. *)
Theorem save_png_fixed_source_rect (file__ : Path) (w : World) (image : NSImage)
        (any_image : NSImage) (path : Path) (size : Z) (w0 : World) :
  decodes_to w (source_path_of file__) image ->
  output_free w file__ ->
  (0 < size)%Z ->
  writable w0 path = true ->
  (exists fd w0',
     save_png any_image path size None w0 = (Returned tt, w0')
     /\ files w0' !! path = Some fd
     /\ resampled any_image size 1024 fd)
  /\ (exists icon w',
        create_icon image 1024 = Returned icon
        /\ main file__ w = (Returned None, w')
        /\ Forall (fun size => exists fd,
                     files w' !! (output_dir_of file__ // png_name size) = Some fd
                     /\ resampled icon size 1024 fd)
                  export_list).
Proof.
  intros Hdec Hfree Hpos Hwr. split.
  - destruct (save_png_run any_image path size None Hpos) as (fd & Hfd & Hsave).
    specialize (Hsave w0). rewrite Hwr in Hsave.
    eexists fd, _. split; [exact Hsave|]. split; [|exact Hfd].
    cbn [files]. apply lookup_insert_eq.
  - destruct (main_free_run file__ w image Hdec Hfree)
      as (icon & w2 & Hicon & _ & _ & Hall & Hmain).
    eexists icon, _. split; [exact Hicon|]. split; [exact Hmain|]. cbn [files].
    eapply Forall_impl; [exact Hall|].
    intros size' (fd & Hlookup & Hfd). exists fd. split; [|exact Hfd].
    rewrite lookup_insert_ne; [exact Hlookup|].
    intros Heq. apply (contents_path_not_png file__ [size']).
    rewrite Heq. apply list_elem_of_here.
Qed.

Lemma save_png_fixed_source_rect_witness :
  (decodes_to sample_world (source_path_of sample_file) sample_image
   /\ output_free sample_world sample_file
   /\ (0 < 16)%Z
   /\ writable out_world ["out"; "appicon_16.png"] = true)
  /\ exists fd w0',
       save_png sample_image ["out"; "appicon_16.png"] 16 None out_world = (Returned tt, w0')
       /\ files w0' !! ["out"; "appicon_16.png"] = Some fd
       /\ resampled sample_image 16 1024 fd.
Proof.
  split; [split; [reflexivity | split; [exact sample_world_free | split; reflexivity]]|].
  exact (proj1 (save_png_fixed_source_rect sample_file sample_world sample_image
                  sample_image ["out"; "appicon_16.png"] 16 out_world
                  eq_refl sample_world_free eq_refl eq_refl)).
Defined.

End ErrorClaims.

(** ** Part III: further properties of the code *)

(** *** The contour of any rectangle *)

(** As [squircle_compute], for the drawn segments and their joints too. *)
Ltac squircle_compute_strokes :=
  unfold create_squircle_path;
  cbv [strokes strokes_from stroke_of straight_runs joints pairs_from edge_corner_joints
       List.filter is_line xorb fst snd
       segments Geometry.elements bezierPath
       moveToPoint_ lineToPoint_ curveToPoint_controlPoint1_controlPoint2_ closePath
       append_element app lineWidth segments_from segment_of pen_step].

Section ContourMore.
Local Open Scope Q_scope.

(** For positive sides the corners leave room on every side: twice the
    corner extent [r * 1.52866483] stays well below either side. *)
Lemma corner_extent_capped (w h : Q) :
  0 < w -> 0 < h ->
  2 * (limited_radius w h * TOP_RIGHT_P1) < w
  /\ 2 * (limited_radius w h * TOP_RIGHT_P1) < h.
Proof.
  intros Hw Hh.
  destruct (limited_radius_bounds w h Hw Hh) as (Hr0 & Hrw & Hrh).
  unfold TOP_RIGHT_P1. split; lra.
Qed.

(** X1.  For any rectangle with positive sides, not only a square, every
    point of the contour lies in the rectangle and each of its four edges
    holds a point of the contour. *)
Theorem squircle_bounds_any_rectangle (x y width height : Q) :
  0 < width -> 0 < height ->
  bounding_box_is (create_squircle_path x y width height) x y width height.
Proof. intros Hw Hh. apply squircle_bounding_box; assumption. Qed.

Lemma squircle_bounds_any_rectangle_witness :
  (0 < 2 /\ 0 < 1) /\ bounding_box_is (create_squircle_path 0 0 2 1) 0 0 2 1.
Proof.
  split; [split; reflexivity|].
  apply (squircle_bounds_any_rectangle 0 0 2 1); reflexivity.
Defined.

(** X2.  For positive sides, the four straight runs of the path head
    right, down, left and up in that order, and each of them covers more
    than 32.7% of its side: the corners never use up a side. *)
Theorem squircle_sides_stay_straight (x y width height : Q) :
  0 < width -> 0 < height ->
  Forall2 (fun side run => heads (fst side) run
                           /\ 0.327 * snd side < advance (fst side) run)
          [(Rightwards, width); (Downwards, height); (Leftwards, width); (Upwards, height)]
          (straight_runs (create_squircle_path x y width height)).
Proof.
  intros Hw Hh.
  destruct (limited_radius_bounds width height Hw Hh) as (Hr0 & Hrw & Hrh).
  squircle_compute_strokes.
  set (r := limited_radius width height) in *. clearbody r.
  unfold_coefficients.
  repeat first [apply List.Forall2_cons | apply List.Forall2_nil];
    cbv [heads advance fst snd px py]; (split; [split; [ring | lra] | lra]).
Qed.

Lemma squircle_sides_stay_straight_witness :
  (0 < 2 /\ 0 < 1)
  /\ Forall2 (fun side run => heads (fst side) run
                              /\ 0.327 * snd side < advance (fst side) run)
             [(Rightwards, 2); (Downwards, 1); (Leftwards, 2); (Upwards, 1)]
             (straight_runs (create_squircle_path 0 0 2 1)).
Proof.
  split; [split; reflexivity|].
  apply (squircle_sides_stay_straight 0 0 2 1); reflexivity.
Defined.

(** X5.  For positive sides, the eight joints between a straight run and a
    corner curve are tangent: the curve leaves, and reaches, the side
    along the side itself. *)
Theorem squircle_edges_meet_corners_tangentially (x y width height : Q) :
  0 < width -> 0 < height ->
  length (edge_corner_joints (create_squircle_path x y width height)) = 8%nat
  /\ Forall tangent_joint (edge_corner_joints (create_squircle_path x y width height)).
Proof.
  intros Hw Hh. split; [reflexivity|].
  destruct (corner_extent_capped width height Hw Hh) as [Hcw Hch].
  destruct (limited_radius_bounds width height Hw Hh) as (Hr0 & _ & _).
  squircle_compute_strokes.
  set (r := limited_radius width height) in *. clearbody r.
  unfold_coefficients.
  repeat first [apply List.Forall_cons | apply List.Forall_nil];
    cbv [tangent_joint arrives departs fst snd pt_eq px py];
    (split; [split; ring | split; [ring | nra]]).
Qed.

Lemma squircle_edges_meet_corners_tangentially_witness :
  (0 < 2 /\ 0 < 1)
  /\ length (edge_corner_joints (create_squircle_path 0 0 2 1)) = 8%nat
  /\ Forall tangent_joint (edge_corner_joints (create_squircle_path 0 0 2 1)).
Proof.
  split; [split; reflexivity|].
  apply (squircle_edges_meet_corners_tangentially 0 0 2 1); reflexivity.
Defined.

End ContourMore.

(** *** The composed icon, continued *)

Section IconMore.
Local Open Scope Q_scope.

Lemma inject_Z_pos (n : Z) : (0 < n)%Z -> 0 < inject_Z n.
Proof. intros H. unfold Qlt. cbn. lia. Qed.

(** X7.  On a canvas of positive size, everything [create_icon] paints is
    clipped, and every path it clips to stays within the middle box that
    leaves a border of 9.375% of the canvas on each of the four sides. *)
Theorem icon_confined_to_inset_box (source_image : NSImage) (canvasSize : Z) :
  (0 < canvasSize)%Z ->
  exists rep,
    create_icon source_image canvasSize
    = Returned (BitmapImage (NSMakeSize (inject_Z canvasSize) (inject_Z canvasSize)) rep)
    /\ Forall (fun item =>
                 clip_of item <> []
                 /\ Forall (fun path => forall pt, on_path path pt ->
                              0.09375 * inject_Z canvasSize <= px pt
                                <= 0.90625 * inject_Z canvasSize
                              /\ 0.09375 * inject_Z canvasSize <= py pt
                                   <= 0.90625 * inject_Z canvasSize)
                           (clip_of item))
              (painted rep).
Proof.
  intros Hn. eexists. split.
  { unfold create_icon. rewrite (alloc_bitmap_pos _ Hn). reflexivity. }
  apply inject_Z_pos in Hn.
  set (s := inject_Z canvasSize) in *.
  assert (Hmask : forall pt,
    on_path (create_squircle_path ((s - s * 0.8125) / 2) ((s - s * 0.8125) / 2)
                                  (s * 0.8125) (s * 0.8125)) pt ->
    0.09375 * s <= px pt <= 0.90625 * s /\ 0.09375 * s <= py pt <= 0.90625 * s).
  { intros pt Hon. apply squircle_in_rect in Hon; [|lra|lra].
    destruct Hon as [Hx Hy].
    assert (E : (s - s * 0.8125) / 2 == 0.09375 * s) by field.
    rewrite E in Hx, Hy. lra. }
  repeat first [apply List.Forall_cons | apply List.Forall_nil];
    cbn [clip_of]; (split; [discriminate|]);
    repeat first [apply List.Forall_cons | apply List.Forall_nil]; exact Hmask.
Qed.

Lemma icon_confined_to_inset_box_witness :
  (0 < 1024)%Z
  /\ exists rep,
       create_icon sample_image 1024 = Returned (BitmapImage (NSMakeSize 1024 1024) rep)
       /\ Forall (fun item =>
                    clip_of item <> []
                    /\ Forall (fun path => forall pt, on_path path pt ->
                                 0.09375 * 1024 <= px pt <= 0.90625 * 1024
                                 /\ 0.09375 * 1024 <= py pt <= 0.90625 * 1024)
                              (clip_of item))
                 (painted rep).
Proof.
  split; [reflexivity|].
  apply (icon_confined_to_inset_box sample_image 1024). reflexivity.
Defined.

(** X9.  On a canvas of positive size, the source rectangle [create_icon]
    draws from starts 15% of the source width in from the left and from
    the bottom, is 70% of the source width wide, and is the source height
    less 30% of the source width high: the vertical inset is taken from the
    width.  So the rectangle has a positive height exactly when the height
    exceeds 30% of the width, and for a square source it is the centred
    square. *)
Theorem create_icon_crop_rectangle (source_image : NSImage) (canvasSize : Z) :
  (0 < canvasSize)%Z ->
  let sw := width (image_size source_image) in
  let sh := height (image_size source_image) in
  exists rep clipped inRect fromRect fraction rest,
    create_icon source_image canvasSize
    = Returned (BitmapImage (NSMakeSize (inject_Z canvasSize) (inject_Z canvasSize)) rep)
    /\ painted rep = PaintedImage clipped source_image inRect fromRect fraction :: rest
    /\ origin_x fromRect == 0.15 * sw /\ origin_y fromRect == 0.15 * sw
    /\ size_width fromRect == 0.7 * sw /\ size_height fromRect == sh - 0.3 * sw
    /\ (0 < size_height fromRect <-> 0.3 * sw < sh)
    /\ (sw == sh -> size_height fromRect == size_width fromRect
                    /\ origin_y fromRect + size_height fromRect + origin_y fromRect == sh).
Proof.
  intros Hpos. cbv zeta. do 6 eexists. split.
  { unfold create_icon. rewrite (alloc_bitmap_pos _ Hpos). reflexivity. }
  split; [reflexivity|].
  cbn [origin_x origin_y size_width size_height].
  set (sw := width (image_size source_image)). set (sh := height (image_size source_image)).
  split; [ring|]. split; [ring|]. split; [ring|]. split; [ring|].
  split; [split; intros H; lra|].
  intros E. split; [rewrite <- E; ring | rewrite <- E; ring].
Qed.

Lemma create_icon_crop_rectangle_witness :
  (0 < 1024)%Z
  /\ exists rep clipped inRect fromRect fraction rest,
       create_icon sample_image 1024 = Returned (BitmapImage (NSMakeSize 1024 1024) rep)
       /\ painted rep = PaintedImage clipped sample_image inRect fromRect fraction :: rest
       /\ origin_x fromRect == 0.15 * 2048 /\ origin_y fromRect == 0.15 * 2048
       /\ size_width fromRect == 0.7 * 2048 /\ size_height fromRect == 1536 - 0.3 * 2048.
Proof.
  split; [reflexivity|].
  destruct (create_icon_crop_rectangle sample_image 1024 eq_refl)
    as (rep & clipped & inRect & fromRect & fraction & rest
        & Hicon & Hpainted & Hx & Hy & Hw & Hh & _).
  exists rep, clipped, inRect, fromRect, fraction, rest.
  split; [exact Hicon|]. split; [exact Hpainted|].
  split; [exact Hx|]. split; [exact Hy|]. split; [exact Hw | exact Hh].
Defined.

End IconMore.

(** *** The script, continued *)

Section ScriptMore.
Local Open Scope string_scope.

(** What the loop leaves at a path: a file where it wrote, what was there
    elsewhere. *)
Lemma export_sizes_files (icon : NSImage) (dir : Path) (sizes : list Z) (w w' : World) :
  Forall (fun size => (0 < size)%Z) sizes ->
  export_sizes icon dir sizes w = (Returned tt, w') ->
  forall p,
    (p ∈ List.filter (writable w) (export_paths dir sizes) -> is_Some (files w' !! p))
    /\ (p ∉ List.filter (writable w) (export_paths dir sizes) ->
        files w' !! p = files w !! p).
Proof.
  intros Hpos Hrun p.
  destruct (export_sizes_run icon dir sizes Hpos w) as (w'' & Hrun' & _ & _ & _ & Hother & Hall).
  rewrite Hrun in Hrun'. injection Hrun' as <-.
  split; [|apply Hother].
  intros Hin. apply elem_of_written in Hin as [Hin Hw].
  apply list_elem_of_fmap in Hin as (size & -> & Hin).
  rewrite Forall_forall in Hall. destruct (Hall size Hin Hw) as (fd & -> & _). eauto.
Qed.

Lemma written_in_dir (w : World) (dir : Path) (sizes : list Z) :
  Forall (fun q => parent q = dir) (List.filter (writable w) (export_paths dir sizes)).
Proof.
  apply Forall_forall. intros q Hq. apply elem_of_written in Hq as [Hq _].
  exact (export_path_parent _ _ _ Hq).
Qed.

(** Whatever way it goes, [main] writes in its output directory only. *)
Lemma main_frame (file__ : Path) (w : World) :
  exists news,
    written (snd (main file__ w)) = (written w ++ news)%list
    /\ Forall (fun q => parent q = output_dir_of file__) news
    /\ forall p, parent p <> output_dir_of file__ ->
                 files (snd (main file__ w)) !! p = files w !! p.
Proof.
  destruct (main_cases file__ w)
    as [Hm|[Hex [[q Hb]|[Hfree [Hnone|(image & Hdec & [Hc|Hc])]]]]].
  - exists []. rewrite (main_missing_run _ _ Hm). cbn [snd written files].
    rewrite app_nil_r. auto.
  - destruct (main_blocked_run _ _ _ Hex Hb) as (w' & -> & Hf & _ & Hw & _).
    exists []. cbn [snd]. rewrite app_nil_r, Hf, Hw. auto.
  - destruct (main_undecodable_run _ _ Hex Hfree Hnone) as (w' & -> & Hf & _ & Hw & _).
    exists []. cbn [snd]. rewrite app_nil_r, Hf, Hw. auto.
  - destruct (main_manifest_dir_run _ _ _ Hdec Hfree Hc)
      as (icon & w1 & w2 & _ & Hf & _ & Hw & Hexport & ->).
    destruct (export_sizes_run icon (output_dir_of file__) export_list
                               export_list_positive w1)
      as (w2' & Hexport' & _ & Hwritten & _ & Hother & _).
    rewrite Hexport in Hexport'. injection Hexport' as <-.
    exists (List.filter (writable w1) (export_paths (output_dir_of file__) export_list)).
    cbn [snd]. split; [now rewrite Hwritten, Hw|]. split; [apply written_in_dir|].
    intros p Hp. rewrite Hother, Hf; [reflexivity|].
    intros Hin. apply Hp. apply elem_of_written in Hin as [Hin _].
    exact (export_path_parent _ _ _ Hin).
  - destruct (main_success_run _ _ _ Hdec Hfree Hc)
      as (icon & w1 & w2 & _ & Hf & _ & Hw & Hexport & ->).
    destruct (export_sizes_run icon (output_dir_of file__) export_list
                               export_list_positive w1)
      as (w2' & Hexport' & _ & Hwritten & _ & Hother & _).
    rewrite Hexport in Hexport'. injection Hexport' as <-.
    exists (List.filter (writable w1) (export_paths (output_dir_of file__) export_list)
            ++ [contents_path_of file__])%list.
    cbn [snd written files]. split; [rewrite Hwritten, Hw; now rewrite <- app_assoc|].
    split.
    + apply Forall_app. split; [apply written_in_dir|].
      repeat constructor. apply parent_path_div.
    + intros p Hp. rewrite lookup_insert_ne.
      * rewrite Hother, Hf; [reflexivity|].
        intros Hin. apply Hp. apply elem_of_written in Hin as [Hin _].
        exact (export_path_parent _ _ _ Hin).
      * intros <-. apply Hp. apply parent_path_div.
Qed.

Lemma main_keeps_source (file__ : Path) (w : World) :
  files (snd (main file__ w)) !! source_path_of file__ = files w !! source_path_of file__.
Proof.
  destruct (main_frame file__ w) as (news & _ & _ & Hframe).
  apply Hframe, source_outside_output_dir.
Qed.

(** How [main] ends, by the way it goes. *)
Lemma main_ends (file__ : Path) (w : World) :
  (path_exists (source_path_of file__) w = (Returned false, w)
   /\ fst (main file__ w) = Returned (Some 1%Z))
  \/ (path_exists (source_path_of file__) w = (Returned true, w)
      /\ ((exists q, blocker w (output_dir_of file__) = Some q
                     /\ fst (main file__ w) = Raised (mkdir_error (output_dir_of file__) q))
          \/ (blocker w (output_dir_of file__) = None
              /\ ((fst (initWithContentsOfFile_ (source_path_of file__) w) = Returned None
                   /\ fst (main file__ w)
                      = Raised (FileNotFoundError
                                  ("Could not load image: "
                                   +:+ path_str (source_path_of file__))))
                  \/ (exists image,
                        decodes_to w (source_path_of file__) image
                        /\ ((is_dir (contents_path_of file__) w = true
                             /\ fst (main file__ w)
                                = Raised (IsADirectoryError
                                            (os_error "21" "Is a directory"
                                                      (contents_path_of file__))))
                            \/ (is_dir (contents_path_of file__) w = false
                                /\ fst (main file__ w) = Returned None))))))).
Proof.
  destruct (main_cases file__ w)
    as [Hm|[Hex [[q Hb]|[Hfree [Hnone|(image & Hdec & [Hc|Hc])]]]]].
  - left. split; [exact Hm|]. now rewrite (main_missing_run _ _ Hm).
  - right. split; [exact Hex|]. left. exists q. split; [exact Hb|].
    destruct (main_blocked_run _ _ _ Hex Hb) as (w' & -> & _). reflexivity.
  - right. split; [exact Hex|]. right. split; [exact Hfree|]. left. split; [exact Hnone|].
    destruct (main_undecodable_run _ _ Hex Hfree Hnone) as (w' & -> & _). reflexivity.
  - right. split; [exact Hex|]. right. split; [exact Hfree|]. right.
    exists image. split; [exact Hdec|]. left. split; [exact Hc|].
    destruct (main_manifest_dir_run _ _ _ Hdec Hfree Hc)
      as (icon & w1 & w2 & _ & _ & _ & _ & _ & ->). reflexivity.
  - right. split; [exact Hex|]. right. split; [exact Hfree|]. right.
    exists image. split; [exact Hdec|]. right. split; [exact Hc|].
    destruct (main_success_run _ _ _ Hdec Hfree Hc)
      as (icon & w1 & w2 & _ & _ & _ & _ & _ & ->). reflexivity.
Qed.

End ScriptMore.

Section ScriptMoreClaims.
Local Open Scope string_scope.

(** X10.  For any list of positive sizes, empty or with repeats, in a
    directory that can take the files (it is there, and no directory sits
    in the place of a file), the export loop returns; it makes no
    directory, writes one file per entry of the list, in order, and touches
    no other path; and the file left at the path of each size is a PNG of
    that size sampled from the icon over (0, 0, 1024, 1024). *)
Theorem export_loop_writes_every_size (icon : NSImage) (dir : Path) (sizes : list Z)
        (w : World) :
  Forall (fun size => (0 < size)%Z) sizes ->
  can_hold w dir sizes ->
  exists w',
    export_sizes icon dir sizes w = (Returned tt, w')
    /\ dirs w' = dirs w
    /\ written w' = (written w ++ map (fun size => dir // png_name size) sizes)%list
    /\ (forall p, p ∉ map (fun size => dir // png_name size) sizes ->
                  files w' !! p = files w !! p)
    /\ Forall (fun size => exists fd,
                 files w' !! (dir // png_name size) = Some fd
                 /\ resampled icon size 1024 fd) sizes.
Proof.
  intros Hpos Hhold.
  destruct (export_sizes_all icon dir sizes w Hpos Hhold)
    as (w' & Hrun & Hdirs & Hwritten & _ & Hother & Hall).
  exists w'. auto.
Qed.

Lemma export_loop_writes_every_size_witness :
  (Forall (fun size => (0 < size)%Z) [16; 32; 16]%Z
   /\ can_hold out_world ["out"] [16; 32; 16]%Z)
  /\ exists w',
       export_sizes sample_image ["out"] [16; 32; 16]%Z out_world = (Returned tt, w')
       /\ written w' = [["out"; "appicon_16.png"]; ["out"; "appicon_32.png"];
                        ["out"; "appicon_16.png"]].
Proof.
  assert (Hpos : Forall (fun size => (0 < size)%Z) [16; 32; 16]%Z) by (repeat constructor).
  assert (Hhold : can_hold out_world ["out"] [16; 32; 16]%Z) by (repeat constructor).
  split; [split; assumption|].
  destruct (export_loop_writes_every_size sample_image ["out"] [16; 32; 16]%Z out_world
              Hpos Hhold) as (w' & Hrun & _ & Hwritten & _).
  exists w'. split; [exact Hrun | exact Hwritten].
Defined.

(** X11.  Two sizes get the same file name, or the same path in a
    directory, only when they are the same size: no export overwrites the
    export of another size. *)
Theorem export_names_are_distinct (dir : Path) (a b : Z) :
  (png_name a = png_name b <-> a = b)
  /\ (dir // png_name a = dir // png_name b <-> a = b).
Proof.
  split; split; intros H; try (subst; reflexivity).
  - apply png_name_inj, H.
  - apply png_path_inj in H. exact H.
Qed.

(** X12.  How [main] ends is decided by the file system it starts in.  It
    returns 1 exactly when the existence check on the source path fails.
    It returns normally (no value) exactly when the toolkit decodes an
    image from the source path, no regular file sits at the output
    directory or above it, and no directory is named [Contents.json].  It
    raises in every other case: when the source path exists and a regular
    file is in the way of the output directory, or the source does not
    decode, or [Contents.json] is a directory. *)
Theorem main_outcome_by_file_system (file__ : Path) (w : World) :
  (fst (main file__ w) = Returned (Some 1%Z)
   <-> path_exists (source_path_of file__) w = (Returned false, w))
  /\ (fst (main file__ w) = Returned None
      <-> (exists image, decodes_to w (source_path_of file__) image)
          /\ blocker w (output_dir_of file__) = None
          /\ is_dir (contents_path_of file__) w = false)
  /\ ((exists e, fst (main file__ w) = Raised e)
      <-> path_exists (source_path_of file__) w = (Returned true, w)
          /\ (blocker w (output_dir_of file__) <> None
              \/ fst (initWithContentsOfFile_ (source_path_of file__) w) = Returned None
              \/ is_dir (contents_path_of file__) w = true)).
Proof.
  destruct (main_ends file__ w)
    as [[Hm ->]|[Hex [(q & Hb & ->)|[Hfree [[Hnone ->]|(image & Hdec & [[Hc ->]|[Hc ->]])]]]]].
  - split; [tauto|]. split.
    + split; [discriminate|]. intros [[image Hdec] _].
      apply decodes_exists in Hdec. rewrite Hdec in Hm. discriminate Hm.
    + split; [intros [e H]; discriminate H|].
      intros [Hex _]. rewrite Hex in Hm. discriminate Hm.
  - split; [split; [discriminate | intros H; rewrite H in Hex; discriminate Hex]|].
    split.
    + split; [discriminate|]. intros (_ & Hfree & _). rewrite Hfree in Hb. discriminate Hb.
    + split; [|eauto]. intros _. split; [exact Hex|]. left. rewrite Hb. discriminate.
  - split; [split; [discriminate | intros H; rewrite H in Hex; discriminate Hex]|].
    split.
    + split; [discriminate|]. intros ([image Hdec] & _).
      unfold decodes_to in Hdec. rewrite Hdec in Hnone. discriminate Hnone.
    + split; [|eauto]. intros _. split; [exact Hex|]. right. left. exact Hnone.
  - split; [split; [discriminate | intros H;
             rewrite (decodes_exists _ _ _ Hdec) in H; discriminate H]|].
    split.
    + split; [discriminate|]. intros (_ & _ & Hc'). rewrite Hc' in Hc. discriminate Hc.
    + split; [|eauto]. intros _. split; [exact (decodes_exists _ _ _ Hdec)|].
      right. right. exact Hc.
  - split; [split; [discriminate | intros H;
             rewrite (decodes_exists _ _ _ Hdec) in H; discriminate H]|].
    split.
    + split; eauto.
    + split; [intros [e H]; discriminate H|].
      intros (_ & [Hb|[Hnone|Hc']]).
      * contradiction.
      * unfold decodes_to in Hdec. rewrite Hdec in Hnone. discriminate Hnone.
      * rewrite Hc' in Hc. discriminate Hc.
Qed.

(** X13.  However it ends, [main] leaves every file outside its output
    directory as it was, the source image among them, and every path it
    writes lies directly in the output directory. *)
Theorem main_writes_only_in_output_dir (file__ : Path) (w : World) (p : Path) :
  (parent p <> output_dir_of file__ ->
   files (snd (main file__ w)) !! p = files w !! p)
  /\ files (snd (main file__ w)) !! source_path_of file__ = files w !! source_path_of file__
  /\ exists news,
       written (snd (main file__ w)) = (written w ++ news)%list
       /\ Forall (fun q => parent q = output_dir_of file__) news.
Proof.
  destruct (main_frame file__ w) as (news & Hwritten & Hnews & Hframe).
  split; [apply Hframe|]. split; [apply Hframe, source_outside_output_dir|].
  exists news. auto.
Qed.

(** X14.  [main] can be run again: on the file system a run that returned
    normally has left, with the output directory and the exported files
    now in place, it returns normally again, and it leaves the same
    directories, files at the same paths, and the same manifest. *)
Theorem main_runs_again (file__ : Path) (w w1 : World) :
  main file__ w = (Returned None, w1) ->
  exists w2,
    main file__ w1 = (Returned None, w2)
    /\ dirs w2 = dirs w1
    /\ (forall p, is_Some (files w2 !! p) <-> is_Some (files w1 !! p))
    /\ files w2 !! contents_path_of file__ = files w1 !! contents_path_of file__.
Proof.
  intros Hmain.
  assert (Hfst : fst (main file__ w) = Returned None) by (now rewrite Hmain).
  destruct (main_ends file__ w)
    as [[_ E]|[_ [(q & _ & E)|[Hfree [[_ E]|(image & Hdec & [[_ E]|[Hc _]])]]]]];
    try (rewrite E in Hfst; discriminate Hfst).
  clear Hfst.
  destruct (main_success_run _ _ _ Hdec Hfree Hc)
    as (icon & wa & ea & Hicon & Hfa & Hda & _ & Hexa & Hmain1).
  rewrite Hmain1 in Hmain. injection Hmain as <-. clear Hmain1.
  destruct (export_sizes_run icon (output_dir_of file__) export_list export_list_positive wa)
    as (ea' & Hexa' & Hdea & _).
  rewrite Hexa in Hexa'. injection Hexa' as <-.
  pose proof (export_sizes_files icon (output_dir_of file__) export_list wa ea
                export_list_positive Hexa) as Hfiles_a.
  assert (Hne_src : contents_path_of file__ <> source_path_of file__).
  { intros E. apply (source_outside_output_dir file__). rewrite <- E.
    apply parent_path_div. }
  match goal with |- context [main file__ ?x] => set (w1 := x) end.
  assert (Hd1 : dirs w1 = dirs w ∪ made_dirs file__) by (now rewrite <- Hda, <- Hdea).
  assert (Hsrc : files w1 !! source_path_of file__ = files w !! source_path_of file__).
  { unfold w1. cbn [files]. rewrite (lookup_insert_ne _ _ _ _ Hne_src).
    destruct (Hfiles_a (source_path_of file__)) as [_ H]. rewrite H, Hfa; [reflexivity|].
    intros Hin. apply elem_of_written in Hin as [Hin _].
    exact (source_outside_output_dir file__ (export_path_parent _ _ _ Hin)). }
  pose proof (decodes_to_same_file _ _ _ _ Hsrc Hdec) as Hdec1.
  assert (Hfree1 : blocker w1 (output_dir_of file__) = None).
  { apply blocker_none_made. intros q Hq. rewrite Hd1.
    apply elem_of_union_r. unfold made_dirs. apply elem_of_list_to_set, Hq. }
  assert (Hc1 : is_dir (contents_path_of file__) w1 = false).
  { unfold contents_path_of. rewrite (is_dir_output_child _ _ w w1 Hd1). exact Hc. }
  destruct (main_success_run _ _ _ Hdec1 Hfree1 Hc1)
    as (icon' & wb & eb & Hicon' & Hfb & Hdb & _ & Hexb & Hmain2).
  rewrite Hicon in Hicon'. injection Hicon' as <-.
  destruct (export_sizes_run icon (output_dir_of file__) export_list export_list_positive wb)
    as (eb' & Hexb' & Hdeb & _).
  rewrite Hexb in Hexb'. injection Hexb' as <-.
  pose proof (export_sizes_files icon (output_dir_of file__) export_list wb eb
                export_list_positive Hexb) as Hfiles_b.
  assert (Hdab : dirs wb = dirs wa).
  { rewrite Hdb, Hd1, Hda. generalize (made_dirs file__) (dirs w). clear.
    intros D0 D1. now rewrite <- (assoc_L (∪)), (idemp_L (∪) D0). }
  rewrite (filter_ext (writable wb) (writable wa)
             (fun p => writable_dirs p wa wb Hdab)) in Hfiles_b.
  eexists. split; [exact Hmain2|]. cbn [dirs files].
  split; [rewrite Hdeb, Hdab; symmetry; exact Hdea|].
  split.
  - intros p. destruct (decide (contents_path_of file__ = p)) as [<-|Hne].
    { unfold w1. cbn [files]. rewrite !lookup_insert_eq. split; eauto. }
    rewrite (lookup_insert_ne _ _ _ _ Hne).
    assert (E1 : files w1 !! p = files ea !! p)
      by (unfold w1; cbn [files]; apply (lookup_insert_ne _ _ _ _ Hne)).
    rewrite E1.
    destruct (Hfiles_a p) as [Hin_a _]. destruct (Hfiles_b p) as [Hin_b Hout_b].
    destruct (decide (p ∈ List.filter (writable wa)
                            (export_paths (output_dir_of file__) export_list)))
      as [Hin|Hnin].
    + split; intros _; [exact (Hin_a Hin) | exact (Hin_b Hin)].
    + rewrite (Hout_b Hnin), Hfb, E1. tauto.
  - unfold w1. cbn [files]. now rewrite !lookup_insert_eq.
Qed.

Lemma main_runs_again_witness :
  exists w1 w2,
    main sample_file sample_world = (Returned None, w1)
    /\ main sample_file w1 = (Returned None, w2)
    /\ dirs w2 = dirs w1.
Proof.
  destruct (main_free_run sample_file sample_world sample_image eq_refl sample_world_free)
    as (icon & e & _ & _ & _ & _ & Hmain).
  destruct (main_runs_again sample_file sample_world _ Hmain) as (w2 & Hagain & Hdirs & _).
  eexists _, w2. split; [exact Hmain|]. split; [exact Hagain | exact Hdirs].
Defined.

(** X15.  When the source path exists but holds nothing the toolkit can
    decode, and no regular file is in the way of the output directory,
    [main] raises [FileNotFoundError] with the message [Could not load
    image: <path>] after it has printed the loading line and made the
    output directory: no file is written or changed, but the output
    directory is there afterwards. *)
Theorem main_undecodable_source_effects (file__ : Path) (w : World) :
  path_exists (source_path_of file__) w = (Returned true, w) ->
  fst (initWithContentsOfFile_ (source_path_of file__) w) = Returned None ->
  blocker w (output_dir_of file__) = None ->
  exists w',
    main file__ w =
    (Raised (FileNotFoundError ("Could not load image: "
                                +:+ path_str (source_path_of file__))), w')
    /\ files w' = files w
    /\ written w' = written w
    /\ output_dir_of file__ ∈ dirs w'
    /\ dirs w ⊆ dirs w'
    /\ stdout w' = (stdout w ++ ["Loading source image: "
                                 +:+ path_str (source_path_of file__)])%list.
Proof.
  intros Hex Hnone Hfree.
  destruct (main_undecodable_run _ _ Hex Hfree Hnone) as (w' & Hmain & Hf & Hd & Hw & Hs).
  exists w'. split; [exact Hmain|]. split; [exact Hf|]. split; [exact Hw|].
  rewrite Hd. split; [apply elem_of_union_r, output_dir_made|].
  split; [apply union_subseteq_l | exact Hs].
Qed.

Lemma main_undecodable_source_effects_witness :
  (path_exists (source_path_of sample_file) garbage_world = (Returned true, garbage_world)
   /\ fst (initWithContentsOfFile_ (source_path_of sample_file) garbage_world)
      = Returned None
   /\ blocker garbage_world (output_dir_of sample_file) = None)
  /\ exists w',
       main sample_file garbage_world
       = (Raised (FileNotFoundError "Could not load image: /repo/images/appiconbase.png"), w')
       /\ written w' = []
       /\ output_dir_of sample_file ∈ dirs w'.
Proof.
  split; [split; [reflexivity | split; reflexivity]|].
  destruct (main_undecodable_source_effects sample_file garbage_world
              eq_refl eq_refl eq_refl)
    as (w' & Hmain & _ & Hwritten & Hdir & _).
  exists w'. split; [exact Hmain|]. split; [exact Hwritten | exact Hdir].
Defined.

(** X16.  For any list of positive sizes, in a directory that can take
    the files, the manifest dict and the export loop agree: entry by entry
    and in the same order, the [filename] of the manifest entry is the name
    of the file the loop writes, that file lies in the output directory and
    is a PNG, and the [size] of the entry is the pixel width and height of
    that PNG joined by an x. *)
Theorem manifest_lists_exported_files (icon : NSImage) (dir : Path) (sizes : list Z)
        (w : World) :
  Forall (fun size => (0 < size)%Z) sizes ->
  can_hold w dir sizes ->
  exists w' news,
    export_sizes icon dir sizes w = (Returned tt, w')
    /\ written w' = (written w ++ news)%list
    /\ Forall2 (fun entry p =>
                  Json.string_member "filename" entry = Some (name p)
                  /\ parent p = dir
                  /\ exists rep,
                       files w' !! p = Some (PNGFile rep)
                       /\ Json.string_member "size" entry
                          = Some (Json.str_int (pixelsWide rep) +:+ "x"
                                  +:+ Json.str_int (pixelsHigh rep)))
               (Json.images_of (contents_of sizes)) news.
Proof.
  intros Hpos Hhold.
  destruct (export_sizes_all icon dir sizes w Hpos Hhold)
    as (w' & Hrun & _ & Hwritten & _ & _ & Hall).
  exists w', (map (fun size => dir // png_name size) sizes).
  split; [exact Hrun|]. split; [exact Hwritten|].
  change (Json.images_of (contents_of sizes))
    with (map (fun size =>
                 Json.Obj [("filename", Json.Str (png_name size));
                           ("idiom", Json.Str "mac");
                           ("size", Json.Str (Json.str_int size +:+ "x" +:+ Json.str_int size));
                           ("scale", Json.Str "1x")]) sizes).
  apply Forall2_fmap, Forall_Forall2_diag.
  eapply Forall_impl; [exact Hall|].
  intros size (fd & Hlookup & rep & -> & Hwide & Hhigh & _).
  split; [cbn; now rewrite name_path_div|].
  split; [apply parent_path_div|].
  exists rep. split; [exact Hlookup|]. rewrite Hwide, Hhigh. reflexivity.
Qed.

Lemma manifest_lists_exported_files_witness :
  (Forall (fun size => (0 < size)%Z) [16; 32]%Z /\ can_hold out_world ["out"] [16; 32]%Z)
  /\ exists w' news,
       export_sizes sample_image ["out"] [16; 32]%Z out_world = (Returned tt, w')
       /\ written w' = news
       /\ length news = length (Json.images_of (contents_of [16; 32]%Z)).
Proof.
  assert (Hpos : Forall (fun size => (0 < size)%Z) [16; 32]%Z) by (repeat constructor).
  assert (Hhold : can_hold out_world ["out"] [16; 32]%Z) by (repeat constructor).
  split; [split; assumption|].
  destruct (manifest_lists_exported_files sample_image ["out"] [16; 32]%Z out_world
              Hpos Hhold) as (w' & news & Hrun & Hwritten & Hall).
  exists w', news. split; [exact Hrun|]. split; [exact Hwritten|].
  symmetry. exact (Forall2_length _ _ _ Hall).
Defined.

(** X18.  For any list of positive sizes the export loop returns and
    prints one line per size, in order, ["  Created: appicon_<N>.png
    (<N>x<N>)"], whether or not the file was written: the answer of the
    write is dropped (line 227).  What it writes are the files that can be
    written, in order; in a directory that is not there it writes nothing
    and prints every line all the same. *)
Theorem export_log_is_unconditional (icon : NSImage) (dir : Path) (sizes : list Z)
        (w : World) :
  Forall (fun size => (0 < size)%Z) sizes ->
  exists w',
    export_sizes icon dir sizes w = (Returned tt, w')
    /\ stdout w' =
       (stdout w
        ++ map (fun size => "  Created: appicon_" +:+ Json.str_int size +:+ ".png ("
                            +:+ Json.str_int size +:+ "x" +:+ Json.str_int size +:+ ")")
               sizes)%list
    /\ written w' =
       (written w
        ++ List.filter (writable w) (map (fun size => dir // png_name size) sizes))%list
    /\ (is_dir dir w = false -> written w' = written w /\ files w' = files w).
Proof.
  intros Hpos.
  destruct (export_sizes_run icon dir sizes Hpos w)
    as (w' & Hrun & _ & Hwritten & Hstdout & Hother & _).
  exists w'. split; [exact Hrun|]. split; [exact Hstdout|]. split; [exact Hwritten|].
  intros Hdir.
  assert (Hnone : List.filter (writable w) (export_paths dir sizes) = []).
  { clear -Hdir. induction sizes as [|size sizes IH]; [reflexivity|].
    rewrite export_paths_cons. cbn [List.filter].
    rewrite writable_child, Hdir. exact IH. }
  rewrite Hnone in Hwritten, Hother. rewrite app_nil_r in Hwritten.
  split; [exact Hwritten|].
  apply map_eq. intros p. apply Hother, not_elem_of_nil.
Qed.

Lemma export_log_is_unconditional_witness :
  Forall (fun size => (0 < size)%Z) [16; 32]%Z
  /\ exists w',
       export_sizes sample_image ["missing"] [16; 32]%Z empty_world = (Returned tt, w')
       /\ stdout w' = ["  Created: appicon_16.png (16x16)"; "  Created: appicon_32.png (32x32)"]
       /\ written w' = [] /\ files w' = ∅.
Proof.
  assert (Hpos : Forall (fun size => (0 < size)%Z) [16; 32]%Z) by (repeat constructor).
  split; [exact Hpos|].
  destruct (export_log_is_unconditional sample_image ["missing"] [16; 32]%Z empty_world Hpos)
    as (w' & Hrun & Hstdout & _ & Hnone).
  destruct (Hnone eq_refl) as [Hwritten Hfiles].
  exists w'. split; [exact Hrun|]. split; [exact Hstdout|]. split; assumption.
Defined.

(** X19.  A regular file at the output directory, or at one of the
    directories above it, stops [main] at [mkdir], as soon as the existence
    check on the source path has passed: it raises [FileExistsError] when
    the file sits at the output directory itself and [NotADirectoryError]
    when it sits above, before anything is printed or loaded, and no file
    is written or changed. *)
Theorem main_blocked_output_dir (file__ : Path) (w : World) (q : Path) :
  path_exists (source_path_of file__) w = (Returned true, w) ->
  blocker w (output_dir_of file__) = Some q ->
  exists e w',
    main file__ w = (Raised e, w')
    /\ (q = output_dir_of file__ ->
        e = FileExistsError (os_error "17" "File exists" (output_dir_of file__)))
    /\ (q <> output_dir_of file__ ->
        e = NotADirectoryError (os_error "20" "Not a directory" (output_dir_of file__)))
    /\ files w' = files w
    /\ written w' = written w
    /\ stdout w' = stdout w.
Proof.
  intros Hex Hb.
  destruct (main_blocked_run _ _ _ Hex Hb) as (w' & Hmain & Hf & _ & Hw & Hs).
  exists (mkdir_error (output_dir_of file__) q), w'.
  split; [exact Hmain|]. unfold mkdir_error.
  split; [intros E; now rewrite (bool_decide_eq_true_2 _ E)|].
  split; [intros E; now rewrite (bool_decide_eq_false_2 _ E)|].
  auto.
Qed.

Lemma main_blocked_output_dir_witness :
  (path_exists (source_path_of sample_file) blocked_world = (Returned true, blocked_world)
   /\ blocker blocked_world (output_dir_of sample_file) = Some ["repo"; "Sources"])
  /\ exists w',
       main sample_file blocked_world
       = (Raised (NotADirectoryError
                    (os_error "20" "Not a directory" (output_dir_of sample_file))), w')
       /\ written w' = [] /\ stdout w' = [].
Proof.
  split; [split; reflexivity|].
  destruct (main_blocked_output_dir sample_file blocked_world ["repo"; "Sources"]
              eq_refl eq_refl)
    as (e & w' & Hmain & _ & He & _ & Hw & Hs).
  exists w'. rewrite (He ltac:(discriminate)) in Hmain.
  split; [exact Hmain|]. split; assumption.
Defined.

End ScriptMoreClaims.

(** ** Reading back what [json.dumps] wrote *)

Section JsonMore.
Import Json.
Local Open Scope string_scope.

Lemma read_escape_char (c : ascii) (tail : string) :
  read_string (escape_char c +:+ tail)
  = match read_string tail with
    | Some (body, rest) => Some (String c body, rest)
    | None => None
    end.
Proof.
  destruct c as [[] [] [] [] [] [] [] []]; reflexivity.
Qed.

Lemma read_string_escape (s rest : string) :
  read_string (escape s +:+ String quote rest) = Some (s, rest).
Proof.
  induction s as [|c s IH].
  - reflexivity.
  - cbn [escape]. rewrite append_assoc, read_escape_char, IH. reflexivity.
Qed.

Lemma ends_number_not_digit (rest : string) (acc : Z) :
  ends_number rest -> read_digits acc rest = (acc, rest).
Proof.
  destruct rest as [|c rest]; [reflexivity|]. cbn [ends_number read_digits].
  intros H. destruct (is_digit c); [discriminate | reflexivity].
Qed.

Lemma read_digits_cons (c : ascii) (s : string) (acc : Z) :
  is_digit c = true ->
  read_digits acc (String c s) = read_digits (10 * acc + Z.of_N (N_of_ascii c - 48)) s.
Proof. intros H. cbn [read_digits]. now rewrite H. Qed.

Lemma read_digits_uint (d : uint) (rest : string) : forall acc : positive,
  ends_number rest ->
  read_digits (Z.pos acc) (NilEmpty.string_of_uint d +:+ rest)
  = (Z.pos (Pos.of_uint_acc d acc), rest).
Proof.
  induction d as [|d IH|d IH|d IH|d IH|d IH|d IH|d IH|d IH|d IH|d IH];
    intros acc Hrest; cbn [NilEmpty.string_of_uint Pos.of_uint_acc];
    [apply ends_number_not_digit, Hrest | ..];
    rewrite append_cons, read_digits_cons by reflexivity;
    rewrite <- (IH _ Hrest); f_equal;
    match goal with
    | |- context [Z.of_N ?n] => let v := eval vm_compute in (Z.of_N n) in
                                change (Z.of_N n) with v
    end; lia.
Qed.

Lemma to_uint_fixed (p : positive) : unorm (Pos.to_uint p) = Pos.to_uint p.
Proof.
  rewrite <- (DecimalPos.Unsigned.to_of (Pos.to_uint p)), DecimalPos.Unsigned.of_to.
  reflexivity.
Qed.

Lemma to_uint_head (p : positive) :
  match Pos.to_uint p with
  | Nil | D0 _ => False
  | _ => True
  end.
Proof.
  pose proof (to_uint_fixed p) as Hfix.
  pose proof (Unsigned.to_uint_nonnil p) as Hnil.
  pose proof (Unsigned.to_uint_nonzero p) as Hzero.
  destruct (Pos.to_uint p) as [|l| | | | | | | | |] eqn:E; try exact I; [congruence|].
  unfold unorm in Hfix. rewrite nzhead_D0 in Hfix.
  destruct (nzhead l) eqn:En; try discriminate Hfix.
  - injection Hfix as <-. apply Hzero. reflexivity.
  - exact (nzhead_nonzero l _ En).
Qed.

Lemma finish_number (n : Z) (rest : string) :
  ends_number rest ->
  match rest with
  | String d _ =>
      if (is_digit d || Ascii.eqb d "." || Ascii.eqb d "e" || Ascii.eqb d "E")%bool
      then None else Some (n, rest)
  | "" => Some (n, rest)
  end = Some (n, rest).
Proof. destruct rest as [|d rest]; [reflexivity|]. cbn [ends_number]. now intros ->. Qed.

Lemma read_nat_pos (p : positive) (rest : string) :
  ends_number rest ->
  read_nat (NilZero.string_of_uint (Pos.to_uint p) +:+ rest) = Some (Z.pos p, rest).
Proof.
  intros Hrest.
  pose proof (to_uint_head p) as Hhead.
  pose proof (DecimalPos.Unsigned.of_to p) as Hval.
  destruct (Pos.to_uint p) as [|l|l|l|l|l|l|l|l|l|l]; try contradiction;
    cbn [NilZero.string_of_uint NilEmpty.string_of_uint Pos.of_uint] in *;
    rewrite append_cons; unfold read_nat;
    match goal with |- context [is_digit ?c] => change (is_digit c) with true end;
    match goal with |- context [Ascii.eqb ?c "0"] => change (Ascii.eqb c "0") with false end;
    cbv iota; rewrite read_digits_cons by reflexivity;
    match goal with
    | |- context [read_digits ?a _] =>
        let v := eval vm_compute in a in change a with v
    end;
    rewrite (read_digits_uint _ _ _ Hrest);
    injection Hval as ->; apply finish_number, Hrest.
Qed.

Lemma read_int_str_int (n : Z) (rest : string) :
  ends_number rest -> read_int (str_int n +:+ rest) = Some (n, rest).
Proof.
  intros Hrest. unfold str_int. destruct n as [|p|p]; cbn [Z.to_int NilZero.string_of_int].
  - change (read_int (String "0" rest) = Some (0%Z, rest)).
    unfold read_int, read_nat. cbn. apply finish_number, Hrest.
  - pose proof (read_nat_pos p rest Hrest) as H.
    pose proof (to_uint_head p) as Hhead.
    destruct (Pos.to_uint p); try contradiction;
      cbn [NilZero.string_of_uint NilEmpty.string_of_uint] in *;
      rewrite append_cons in *; exact H.
  - rewrite append_cons. unfold read_int.
    change (match read_nat (NilZero.string_of_uint (Pos.to_uint p) +:+ rest) with
            | Some (n, rest0) => Some ((- n)%Z, rest0)
            | None => None
            end = Some (Z.neg p, rest)).
    rewrite (read_nat_pos p rest Hrest). reflexivity.
Qed.

Lemma items_fix_eq (indent level : nat) (l : list value) :
  (fix rest (l : list value) : string :=
     match l with
     | [] => ""
     | y :: l' =>
         "," +:+ newline_indent indent level +:+ encode indent level y +:+ rest l'
     end) l
  = items_tail indent level l.
Proof. induction l as [|y l IH]; [reflexivity|]. cbn [items_tail]. now rewrite <- IH. Qed.

Lemma members_fix_eq (indent level : nat) (l : list (string * value)) :
  (fix rest (l : list (string * value)) : string :=
     match l with
     | [] => ""
     | (k', y) :: l' =>
         "," +:+ newline_indent indent level
         +:+ encode_string k' +:+ ": " +:+ encode indent level y +:+ rest l'
     end) l
  = members_tail indent level l.
Proof.
  induction l as [|[k' y] l IH]; [reflexivity|]. cbn [members_tail]. now rewrite <- IH.
Qed.

Lemma encode_arr (indent level : nat) (x : value) (xs : list value) :
  encode indent level (Arr (x :: xs))
  = "[" +:+ newline_indent indent (S level) +:+ encode indent (S level) x
    +:+ items_tail indent (S level) xs +:+ newline_indent indent level +:+ "]".
Proof. cbn [encode]. now rewrite items_fix_eq. Qed.

Lemma encode_obj (indent level : nat) (k : string) (x : value) (kxs : list (string * value)) :
  encode indent level (Obj ((k, x) :: kxs))
  = "{" +:+ newline_indent indent (S level)
    +:+ encode_string k +:+ ": " +:+ encode indent (S level) x
    +:+ members_tail indent (S level) kxs +:+ newline_indent indent level +:+ "}".
Proof. cbn [encode]. now rewrite members_fix_eq. Qed.

Lemma need_items_fix (l : list value) :
  (fix go (l : list value) : nat :=
     match l with
     | [] => 0
     | x :: l' => S (Nat.max (need x) (go l'))
     end) l = need_items l.
Proof. induction l as [|x l IH]; [reflexivity|]. cbn [need_items]. now rewrite <- IH. Qed.

Lemma need_members_fix (l : list (string * value)) :
  (fix go (l : list (string * value)) : nat :=
     match l with
     | [] => 0
     | (_, x) :: l' => S (Nat.max (need x) (go l'))
     end) l = need_members l.
Proof.
  induction l as [|[k x] l IH]; [reflexivity|]. cbn [need_members]. now rewrite <- IH.
Qed.

Lemma need_arr (l : list value) : need (Arr l) = S (need_items l).
Proof. cbn [need]. now rewrite need_items_fix. Qed.

Lemma need_obj (l : list (string * value)) : need (Obj l) = S (need_members l).
Proof. cbn [need]. now rewrite need_members_fix. Qed.

Lemma skip_ws_spaces (n : nat) (s : string) : skip_ws (spaces n +:+ s) = skip_ws s.
Proof. induction n as [|n IH]; [reflexivity|]. cbn [spaces]. rewrite append_cons. exact IH. Qed.

Lemma skip_ws_newline_indent (indent level : nat) (s : string) :
  skip_ws (newline_indent indent level +:+ s) = skip_ws s.
Proof.
  unfold newline_indent, newline. rewrite append_assoc, append_cons.
  cbn [skip_ws]. change (is_ws "010") with true. cbv iota.
  change ("" +:+ (spaces (indent * level) +:+ s)) with (spaces (indent * level) +:+ s).
  apply skip_ws_spaces.
Qed.

Lemma str_int_head (n : Z) :
  exists c s, str_int n = String c s
              /\ In c ["-"; "0"; "1"; "2"; "3"; "4"; "5"; "6"; "7"; "8"; "9"]%char.
Proof.
  unfold str_int. destruct n as [|p|p]; cbn [Z.to_int NilZero.string_of_int].
  - exists "0"%char, "". split; [reflexivity|]. cbn. tauto.
  - pose proof (to_uint_head p) as H.
    destruct (Pos.to_uint p); try contradiction;
      cbn [NilZero.string_of_uint NilEmpty.string_of_uint];
      eexists _, _; (split; [reflexivity|]); cbn; tauto.
  - eexists _, _. split; [reflexivity|]. cbn. tauto.
Qed.

Lemma encode_head (indent level : nat) (v : value) :
  exists c s, encode indent level v = String c s /\ In c value_heads.
Proof.
  destruct v as [|[]|n|s|[|x xs]|[|[k x] kxs]];
    try (eexists _, _; split; [reflexivity|]; cbn; tauto).
  destruct (str_int_head n) as (c & s & E & Hc).
  exists c, s. split; [exact E|]. cbn in Hc |- *. tauto.
Qed.

Lemma skip_ws_head (c : ascii) (s : string) :
  In c value_heads -> skip_ws (String c s) = String c s.
Proof.
  intros Hc. cbv [value_heads In] in Hc.
  repeat (destruct Hc as [<-|Hc]; [reflexivity|]). contradiction.
Qed.

Lemma skip_ws_encode (indent level : nat) (v : value) (rest : string) :
  skip_ws (encode indent level v +:+ rest) = encode indent level v +:+ rest.
Proof.
  destruct (encode_head indent level v) as (c & s & E & Hc).
  rewrite E, append_cons. apply skip_ws_head, Hc.
Qed.

Lemma append_nil_l (s : string) : "" +:+ s = s.
Proof. reflexivity. Qed.

Lemma read_value_string (f : nat) (s' : string) :
  read_value (S f) (String quote s')
  = match read_string s' with
    | Some (body, rest) => Some (Str body, rest)
    | None => None
    end.
Proof. reflexivity. Qed.

Lemma read_value_bracket (f : nat) (c : ascii) (s : string) :
  In c value_heads ->
  read_value (S f) (String "[" (String c s))
  = match read_items f (String c s) with
    | Some (items, rest) => Some (Arr items, rest)
    | None => None
    end.
Proof.
  intros Hc. cbv [value_heads In] in Hc.
  repeat (destruct Hc as [<-|Hc]; [reflexivity|]). contradiction.
Qed.

Lemma read_value_brace (f : nat) (s : string) :
  read_value (S f) (String "{" (String quote s))
  = match read_members f (String quote s) with
    | Some (members, rest) => Some (Obj members, rest)
    | None => None
    end.
Proof. reflexivity. Qed.

Lemma read_value_number (f : nat) (c : ascii) (s : string) :
  In c ["-"; "0"; "1"; "2"; "3"; "4"; "5"; "6"; "7"; "8"; "9"]%char ->
  read_value (S f) (String c s)
  = match read_int (String c s) with
    | Some (n, rest) => Some (Int n, rest)
    | None => None
    end.
Proof.
  intros Hc. cbv [In] in Hc.
  repeat (destruct Hc as [<-|Hc]; [reflexivity|]). contradiction.
Qed.

Lemma read_items_step (f : nat) (s : string) :
  read_items (S f) s
  = match read_value f s with
    | Some (v, rest) =>
        match skip_ws rest with
        | String "," rest' =>
            match read_items f (skip_ws rest') with
            | Some (vs, rest'') => Some (v :: vs, rest'')
            | None => None
            end
        | String "]" rest' => Some ([v], rest')
        | _ => None
        end
    | None => None
    end.
Proof. reflexivity. Qed.

Lemma read_members_step (f : nat) (s' : string) :
  read_members (S f) (String quote s')
  = match read_string s' with
    | Some (key, rest) =>
        match skip_ws rest with
        | String ":" rest1 =>
            match read_value f (skip_ws rest1) with
            | Some (v, rest2) =>
                match skip_ws rest2 with
                | String "," rest3 =>
                    match read_members f (skip_ws rest3) with
                    | Some (kvs, rest4) => Some ((key, v) :: kvs, rest4)
                    | None => None
                    end
                | String "}" rest3 => Some ([(key, v)], rest3)
                | _ => None
                end
            | None => None
            end
        | _ => None
        end
    | None => None
    end.
Proof. reflexivity. Qed.

Lemma ends_number_newline_indent (indent level : nat) (s : string) :
  ends_number (newline_indent indent level +:+ s).
Proof. reflexivity. Qed.

Lemma ends_number_comma (s : string) : ends_number ("," +:+ s).
Proof. reflexivity. Qed.


Lemma items_read_back (indent level closing : nat) (rest : string) (xs : list value) :
  forall x fuel,
    Forall reads_back (x :: xs) ->
    need_items (x :: xs) <= fuel ->
    read_items fuel (encode indent level x +:+ items_tail indent level xs
                     +:+ newline_indent indent closing +:+ "]" +:+ rest)
    = Some (x :: xs, rest).
Proof.
  induction xs as [|y ys IH]; intros x fuel Hall Hfuel.
  - apply List.Forall_cons_iff in Hall as [Hx _].
    cbn [need_items] in Hfuel. destruct fuel as [|f]; [lia|].
    rewrite read_items_step. cbn [items_tail]. rewrite append_nil_l.
    rewrite (Hx indent level _ f); [|lia|apply ends_number_newline_indent].
    rewrite skip_ws_newline_indent. reflexivity.
  - apply List.Forall_cons_iff in Hall as [Hx Hall].
    cbn [need_items] in Hfuel. destruct fuel as [|f]; [lia|].
    rewrite read_items_step. cbn [items_tail]. rewrite !append_assoc.
    rewrite (Hx indent level _ f); [|lia|apply ends_number_comma].
    rewrite (append_cons "," ""), append_nil_l.
    change (skip_ws (String "," ?s)) with (String "," s).
    cbv iota beta.
    rewrite skip_ws_newline_indent, skip_ws_encode.
    rewrite (IH y f Hall); [reflexivity|]. cbn [need_items]. lia.
Qed.

Lemma skip_ws_quote (s : string) : skip_ws (String quote s) = String quote s.
Proof. reflexivity. Qed.

Lemma encode_string_eq (k rest : string) :
  encode_string k +:+ rest = String quote (escape k +:+ String quote rest).
Proof.
  unfold encode_string. rewrite append_cons, append_assoc. reflexivity.
Qed.

Lemma members_read_back (indent level closing : nat) (rest : string)
    (kxs : list (string * value)) :
  forall k x fuel,
    Forall (fun kv => reads_back (snd kv)) ((k, x) :: kxs) ->
    need_members ((k, x) :: kxs) <= fuel ->
    read_members fuel (encode_string k +:+ ": " +:+ encode indent level x
                       +:+ members_tail indent level kxs
                       +:+ newline_indent indent closing +:+ "}" +:+ rest)
    = Some ((k, x) :: kxs, rest).
Proof.
  induction kxs as [|[k' y] kys IH]; intros k x fuel Hall Hfuel.
  - apply List.Forall_cons_iff in Hall as [Hx _]. cbn [snd] in Hx.
    cbn [need_members] in Hfuel. destruct fuel as [|f]; [lia|].
    rewrite encode_string_eq, read_members_step, read_string_escape.
    rewrite (append_cons ":" " "), (append_cons " " "").
    change (skip_ws (String ":" ?s)) with (String ":" s). cbv iota beta.
    change (skip_ws (String " " ?s)) with (skip_ws s).
    rewrite append_nil_l, skip_ws_encode.
    cbn [members_tail]. rewrite append_nil_l.
    rewrite (Hx indent level _ f); [|lia|apply ends_number_newline_indent].
    rewrite skip_ws_newline_indent. reflexivity.
  - apply List.Forall_cons_iff in Hall as [Hx Hall]. cbn [snd] in Hx.
    cbn [need_members] in Hfuel. destruct fuel as [|f]; [lia|].
    rewrite encode_string_eq, read_members_step, read_string_escape.
    rewrite (append_cons ":" " "), (append_cons " " "").
    change (skip_ws (String ":" ?s)) with (String ":" s). cbv iota beta.
    change (skip_ws (String " " ?s)) with (skip_ws s).
    rewrite append_nil_l, skip_ws_encode.
    cbn [members_tail]. rewrite !append_assoc.
    rewrite (Hx indent level _ f); [|lia|apply ends_number_comma].
    rewrite (append_cons "," ""), append_nil_l.
    change (skip_ws (String "," ?s)) with (String "," s).
    cbv iota beta.
    rewrite skip_ws_newline_indent.
    rewrite (encode_string_eq k'), skip_ws_quote, <- (encode_string_eq k').
    rewrite (IH k' y f Hall); [reflexivity|]. cbn [need_members]. lia.
Qed.

Lemma read_value_array (f : nat) (s' : string) :
  read_value (S f) (String "[" s')
  = match skip_ws s' with
    | String "]" rest => Some (Arr [], rest)
    | s1 =>
        match read_items f s1 with
        | Some (items, rest) => Some (Arr items, rest)
        | None => None
        end
    end.
Proof. reflexivity. Qed.

Lemma read_value_object (f : nat) (s' : string) :
  read_value (S f) (String "{" s')
  = match skip_ws s' with
    | String "}" rest => Some (Obj [], rest)
    | s1 =>
        match read_members f s1 with
        | Some (members, rest) => Some (Obj members, rest)
        | None => None
        end
    end.
Proof. reflexivity. Qed.

Lemma array_first_item (f : nat) (c : ascii) (s : string) :
  In c value_heads ->
  match String c s with
  | String "]" rest => Some (Arr [], rest)
  | s1 =>
      match read_items f s1 with
      | Some (items, rest) => Some (Arr items, rest)
      | None => None
      end
  end
  = match read_items f (String c s) with
    | Some (items, rest) => Some (Arr items, rest)
    | None => None
    end.
Proof.
  intros Hc. cbv [value_heads In] in Hc.
  repeat (destruct Hc as [<-|Hc]; [reflexivity|]). contradiction.
Qed.

Lemma object_first_member (f : nat) (s : string) :
  match String quote s with
  | String "}" rest => Some (Obj [], rest)
  | s1 =>
      match read_members f s1 with
      | Some (members, rest) => Some (Obj members, rest)
      | None => None
      end
  end
  = match read_members f (String quote s) with
    | Some (members, rest) => Some (Obj members, rest)
    | None => None
    end.
Proof. reflexivity. Qed.

(** Every value printed by [encode] is read back by [read_value], whatever
    follows it, given fuel for its depth. *)
Lemma read_value_encode (v : value) : reads_back v.
Proof.
  induction v as [|b|n|s|l IH|m IH] using value_ind';
    intros indent level rest fuel Hfuel Hrest.
  - destruct fuel as [|f]; [cbn in Hfuel; lia|]. reflexivity.
  - destruct fuel as [|f]; [cbn in Hfuel; lia|]. destruct b; reflexivity.
  - destruct fuel as [|f]; [cbn in Hfuel; lia|]. cbn [encode].
    destruct (str_int_head n) as (c & s & E & Hc).
    rewrite E, append_cons, (read_value_number f c _ Hc), <- append_cons, <- E.
    now rewrite read_int_str_int.
  - destruct fuel as [|f]; [cbn in Hfuel; lia|]. cbn [encode].
    rewrite encode_string_eq, read_value_string, read_string_escape. reflexivity.
  - rewrite need_arr in Hfuel. destruct fuel as [|f]; [lia|].
    destruct l as [|x xs]; [reflexivity|].
    rewrite encode_arr, !append_assoc, (append_cons "[" ""), append_nil_l.
    rewrite read_value_array, skip_ws_newline_indent, skip_ws_encode.
    destruct (encode_head indent (S level) x) as (c & s & E & Hc).
    rewrite E at 1. rewrite append_cons, (array_first_item f c _ Hc), <- append_cons, <- E.
    rewrite (append_cons "]" ""), append_nil_l.
    change (String "]" rest) with ("]" +:+ rest).
    rewrite (items_read_back indent (S level) level rest xs x f IH); [reflexivity|].
    lia.
  - rewrite need_obj in Hfuel. destruct fuel as [|f]; [lia|].
    destruct m as [|[k x] kxs]; [reflexivity|].
    rewrite encode_obj, !append_assoc, (append_cons "{" ""), append_nil_l.
    rewrite read_value_object, skip_ws_newline_indent.
    rewrite (encode_string_eq k), skip_ws_quote, object_first_member.
    rewrite <- (encode_string_eq k).
    rewrite (append_cons "}" ""), append_nil_l.
    change (String "}" rest) with ("}" +:+ rest).
    rewrite (members_read_back indent (S level) level rest kxs k x f IH); [reflexivity|].
    lia.
Qed.

Lemma encode_nonempty (indent level : nat) (v : value) :
  1 <= String.length (encode indent level v).
Proof.
  destruct (encode_head indent level v) as (c & s & E & _). rewrite E. cbn. lia.
Qed.

Lemma need_items_length (indent level : nat) (l : list value) :
  Forall (fun v => forall indent level, need v <= String.length (encode indent level v)) l ->
  need_items l <= String.length (items_tail indent level l).
Proof.
  induction 1 as [|y ys Hy _ IH]; [reflexivity|].
  cbn [need_items items_tail]. rewrite !length_append.
  specialize (Hy indent level). cbn [String.length]. lia.
Qed.

Lemma need_members_length (indent level : nat) (l : list (string * value)) :
  Forall (fun kv => forall indent level,
            need (snd kv) <= String.length (encode indent level (snd kv))) l ->
  need_members l <= String.length (members_tail indent level l).
Proof.
  induction 1 as [|[k y] ys Hy _ IH]; [reflexivity|].
  cbn [need_members members_tail]. rewrite !length_append.
  specialize (Hy indent level). cbn [snd] in Hy. cbn [String.length]. lia.
Qed.

Lemma need_length (v : value) :
  forall indent level, need v <= String.length (encode indent level v).
Proof.
  induction v as [|b|n|s|l IH|m IH] using value_ind'; intros indent level;
    try apply (encode_nonempty indent level).
  - destruct l as [|x xs]; [cbn; lia|].
    rewrite need_arr, encode_arr, !length_append. cbn [need_items].
    apply List.Forall_cons_iff in IH as [Hx IH].
    pose proof (need_items_length indent (S level) xs IH).
    specialize (Hx indent (S level)). cbn [String.length]. lia.
  - destruct m as [|[k x] kxs]; [cbn; lia|].
    rewrite need_obj, encode_obj, !length_append. cbn [need_members].
    apply List.Forall_cons_iff in IH as [Hx IH]. cbn [snd] in Hx.
    pose proof (need_members_length indent (S level) kxs IH).
    specialize (Hx indent (S level)). cbn [String.length]. lia.
Qed.

(** Whatever [dumps] prints, followed by the newline the script adds, [loads]
    reads back as the value printed. *)
Lemma loads_dumps (v : value) (indent : nat) :
  loads (dumps v indent +:+ newline) = Some v.
Proof.
  unfold loads, dumps. rewrite skip_ws_encode.
  rewrite (read_value_encode v indent 0 newline); [reflexivity| |reflexivity].
  rewrite length_append. pose proof (need_length v indent 0). lia.
Qed.


End JsonMore.

Section JsonMoreClaims.
Import Script.
Local Open Scope string_scope.

(** X17.  For any list of sizes, the text the script writes to
    [Contents.json], [json.dumps(contents, indent=2)] followed by a newline,
    reads back as JSON to exactly the dict that was built: the same keys in
    the same order, one [images] entry per size with the same four fields,
    and the same [info]. *)
Theorem manifest_text_reads_back (sizes : list Z) :
  Json.loads (Json.dumps (contents_of sizes) 2 +:+ Json.newline)
  = Some (contents_of sizes).
Proof. apply loads_dumps. Qed.

End JsonMoreClaims.
